(** * dbresolver: tenant-to-database resolution, request binding, bulk migration

    A shallow embedding of [dbresolver/dbresolver.go] and
    [dbresolver/config.go].  Go maps are finite maps ([gmap]); a [range]
    over a map visits every entry once in an order the language leaves
    open, so every function that ranges over a map receives the visiting
    order as an explicit argument (see [go_range]).  Pointers to
    [gorm.DB] are records carrying their address, so that equality of
    handles is identity of instances.  A Go function returning a pointer
    and an [error], of which exactly one is nil, returns a [result]. *)

From stdpp Require Import gmap strings list fin_maps.

Open Scope string_scope.
Open Scope list_scope.

Set Warnings "-clear-no-such-hyp".

(** ** Errors and panics *)

(** The [error] values the package creates with [fmt.Errorf], and the ones it
    receives from gorm and passes on. *)
Inductive error : Type :=
  | ErrNoConfiguration (apiKey : string)
      (* "no database configuration found for API key: %q" *)
  | ErrNoDatabase (apiKey : string)
      (* "no database found for API key %q" *)
  | ErrNoConnection (apiKey : string)
      (* "no valid connection exists for API key: %s" *)
  | ErrUnsupportedDriver (driver : string)
      (* "unsupported database driver: %s" *)
  | ErrGorm (msg : string).
      (* an error returned by gorm.Open or by a handle's AutoMigrate *)

Global Instance error_eq_dec : EqDecision error.
Proof. solve_decision. Defined.

(** What a [panic] carries. *)
Inductive panic_value : Type :=
  | PanicString (msg : string)
  | PanicError (err : error)
  | PanicTypeAssertion.

(** A Go call either returns or panics. *)
Inductive outcome (A : Type) : Type :=
  | Returns (a : A)
  | Panics (p : panic_value).
Arguments Returns {A} a.
Arguments Panics {A} p.

(** The return of a Go function with a pointer and an [error] as its results: the value
    with a nil error, or a nil pointer with the error. *)
Inductive result (A : Type) : Type :=
  | Ok (a : A)
  | Err (err : error).
Arguments Ok {A} a.
Arguments Err {A} err.

(** ** Drivers, dialectors and connection handles *)

(** [type Driver string] with its three constants. *)
Abbreviation Driver := string (only parsing).
Definition Sqlite : Driver := "sqlite".
Definition MySQL : Driver := "mysql".
Definition Postgres : Driver := "postgres".

(** [type DBDriver struct { Driver Driver; Database string }] *)
Record DBDriver : Type := mkDBDriver {
  dbd_Driver : Driver;
  dbd_Database : string;
}.

(** The dialector built by [sqlite.Open], [mysql.Open] or [postgres.Open]. *)
Inductive Dialector : Type :=
  | sqlite_Open (dsn : string)
  | mysql_Open (dsn : string)
  | postgres_Open (dsn : string).

Global Instance Dialector_eq_dec : EqDecision Dialector.
Proof. solve_decision. Defined.

(** [gorm.Config] is a struct of the gorm library; only its identity matters
    here: the zero value [&gorm.Config{}] or one supplied by the caller.  A
    value of this type is a pointer that is not nil; the nil pointer, on
    which [gorm.Open] panics, is not modelled. *)
Inductive gorm_Config : Type :=
  | Config_zero
  | Config_custom (settings : string).

Global Instance gorm_Config_eq_dec : EqDecision gorm_Config.
Proof. solve_decision. Defined.

(** A pointer to [gorm.DB]: the address tells instances apart. *)
Record gorm_DB : Type := mkDB {
  db_addr : nat;
  db_dialector : Dialector;
  db_config : gorm_Config;
}.

Global Instance gorm_DB_eq_dec : EqDecision gorm_DB.
Proof. solve_decision. Defined.

(** ** Configuration and resolver *)

(** [type DatabaseConfig map[string]map[string]string] *)
Abbreviation DatabaseConfig := (gmap string (gmap string string)) (only parsing).

(** [type DBResolver struct] *)
Record DBResolver : Type := mkDBResolver {
  conns : gmap string gorm_DB;
  databaseConfig : DatabaseConfig;
  config : gorm_Config;
}.

(** [type Option func(resolver *DBResolver)] *)
Definition Option : Type := DBResolver → DBResolver.

Definition GormConfig (c : gorm_Config) : Option :=
  fun resolver =>
    {| conns := conns resolver;
       databaseConfig := databaseConfig resolver;
       config := c |}.

(** A [range] over the map [m] visits the entries in the order [order]. *)
Definition go_range {V : Type} (m : gmap string V) (order : list (string * V)) : Prop :=
  order ≡ₚ map_to_list m.

(** One iteration of the loop of [DatabaseDrivers]: both keys are required. *)
Definition entry_descriptor (dbmap : gmap string string) : outcome DBDriver :=
  match dbmap !! "driver" with
  | None => Panics (PanicString "driver not specified in configuration file")
  | Some driver =>
      match dbmap !! "database" with
      | None => Panics (PanicString "database key not specified in configuration file")
      | Some database => Returns (mkDBDriver driver database)
      end
  end.

(** The loop of [DatabaseDrivers] over the entries still to visit, with the
    slice built so far. *)
Fixpoint DatabaseDrivers_loop (entries : list (string * gmap string string))
    (databaseNames : list DBDriver) : outcome (list DBDriver) :=
  match entries with
  | [] => Returns databaseNames
  | (_, dbmap) :: rest =>
      match entry_descriptor dbmap with
      | Panics p => Panics p
      | Returns d => DatabaseDrivers_loop rest (databaseNames ++ [d])
      end
  end.

(** [func (dbconfig DatabaseConfig) DatabaseDrivers() []DBDriver], with the
    order in which [range dbconfig] visits the entries. *)
Definition DatabaseDrivers (order : list (string * gmap string string))
    : outcome (list DBDriver) :=
  DatabaseDrivers_loop order [].

(** The [switch dbDriver.Driver] of [New]; [None] is the [default] branch. *)
Definition dialect_for (dbDriver : DBDriver) : option Dialector :=
  if decide (dbd_Driver dbDriver = Sqlite) then Some (sqlite_Open (dbd_Database dbDriver))
  else if decide (dbd_Driver dbDriver = MySQL) then Some (mysql_Open (dbd_Database dbDriver))
  else if decide (dbd_Driver dbDriver = Postgres) then Some (postgres_Open (dbd_Database dbDriver))
  else None.

(** ** The resolver's two lookups *)

(** [func resolveConnection(apiKey string)], returning [*gorm.DB] and [error] *)
Definition resolveConnection (resolver : DBResolver) (apiKey : string) : result gorm_DB :=
  match databaseConfig resolver !! apiKey with
  | None => Err (ErrNoConfiguration apiKey)
  | Some databaseMap =>
      match databaseMap !! "database" with
      | None => Err (ErrNoDatabase apiKey)
      | Some databaseName =>
          match conns resolver !! databaseName with
          | None => Err (ErrNoConnection apiKey)
          | Some conn => Ok conn
          end
      end
  end.

(** [func resolveDatabaseName(apiKey string)], returning [string] and
    [error]; the pair is kept, since the middleware drops the error and uses
    the string. *)
Definition resolveDatabaseName (resolver : DBResolver) (apiKey : string)
    : string * option error :=
  match databaseConfig resolver !! apiKey with
  | None => ("", Some (ErrNoConfiguration apiKey))
  | Some databaseMap =>
      match databaseMap !! "database" with
      | None => ("", Some (ErrNoDatabase apiKey))
      | Some databaseName => (databaseName, None)
      end
  end.

(** The canonical identifier the configuration gives a tenant, if any. *)
Definition canonical_identifier (c : DatabaseConfig) (apiKey : string) : option string :=
  c !! apiKey ≫= (.!! "database").

(** ** Request contexts *)

(** Context keys: the package's own [type ContextValue string], or a key of
    some other type, which never equals a [ContextValue]. *)
Inductive context_key : Type :=
  | ContextValue (name : string)
  | ForeignKey (n : nat).

Global Instance context_key_eq_dec : EqDecision context_key.
Proof. solve_decision. Defined.

Definition ConnectionContextKey : context_key := ContextValue "connection".
Definition DatabaseContextKey : context_key := ContextValue "database".

(** The values of type [any] that occur: a [gorm.DB] pointer, a string, or
    something else. *)
Inductive any : Type :=
  | any_DB (db : gorm_DB)
  | any_string (s : string)
  | any_other (n : nat).

(** A [context.Context] as its chain of [WithValue] bindings, innermost first. *)
Definition Context : Type := list (context_key * any).

Definition context_WithValue (parent : Context) (key : context_key) (val : any) : Context :=
  (key, val) :: parent.

(** [ctx.Value(key)]: the innermost binding of [key], or nil. *)
Fixpoint context_Value (ctx : Context) (key : context_key) : option any :=
  match ctx with
  | [] => None
  | (k, v) :: parent => if decide (k = key) then Some v else context_Value parent key
  end.

(** ** Requests, responses and handlers *)

(** The parts of [http.Request] the package reads; [URL_Query] is the parsed
    query, as [r.URL.Query()] returns it. *)
Record Request : Type := mkRequest {
  Header : gmap string (list string);
  URL_Query : gmap string (list string);
  req_Context : Context;
}.

(** [r.WithContext(ctx)]: a copy of the request carrying [ctx]. *)
Definition WithContext (r : Request) (ctx : Context) : Request :=
  {| Header := Header r; URL_Query := URL_Query r; req_Context := ctx |}.

(** The first value stored under a key, or the empty string: the common body
    of [Header.Get] and [url.Values.Get]. *)
Definition first_value (vs : option (list string)) : string :=
  match vs with
  | Some (v :: _) => v
  | _ => ""
  end.

Definition Values_Get (v : gmap string (list string)) (key : string) : string :=
  first_value (v !! key).

(** What has been written to an [http.ResponseWriter]: the status code once
    [WriteHeader] was called, and the body. *)
Record ResponseWriter : Type := mkResponseWriter {
  rw_status : option nat;
  rw_body : string;
}.

Definition StatusInternalServerError : nat := 500.

Definition newline : string := String (Ascii.ascii_of_nat 10) EmptyString.

(** [http.Error(w, msg, code)]: status [code], body [msg] and a newline. *)
Definition http_Error (w : ResponseWriter) (msg : string) (code : nat) : ResponseWriter :=
  {| rw_status := match rw_status w with None => Some code | Some c => Some c end;
     rw_body := rw_body w +:+ msg +:+ newline |}.

(** What serving one request acts on: the response and the standard logger. *)
Record Exchange : Type := mkExchange {
  resp : ResponseWriter;
  stdlog : list string;
}.

Definition log_Println (x : Exchange) (msg : string) : Exchange :=
  {| resp := resp x; stdlog := stdlog x ++ [msg] |}.

(** An [http.Handler], as the effect of [ServeHTTP(w, r)]. *)
Definition Handler : Type := Request → Exchange → Exchange.

(** The package-level variable [apiKeyHeader] and its setter. *)
Record Globals : Type := mkGlobals { apiKeyHeader : string }.

Definition initial_Globals : Globals := {| apiKeyHeader := "x-api-key" |}.

Definition SetHeaderName (name : string) (g : Globals) : Globals :=
  {| apiKeyHeader := name |}.

(** [func DB(r)]: the type assertion panics when the value is absent or of
    another type. *)
Definition DB (resolver : DBResolver) (r : Request) : outcome gorm_DB :=
  match context_Value (req_Context r) ConnectionContextKey with
  | Some (any_DB db) => Returns db
  | _ => Panics PanicTypeAssertion
  end.

(** [func DBName(r)] *)
Definition DBName (resolver : DBResolver) (r : Request) : outcome string :=
  match context_Value (req_Context r) DatabaseContextKey with
  | Some (any_string dbName) => Returns dbName
  | _ => Panics PanicTypeAssertion
  end.

(** What [AutoMigrate] does that can be observed: a migration attempted on a
    handle, and a call of the error callback. *)
Inductive migration_event : Type :=
  | Migrated (conn : gorm_DB)
  | PolicyAsked (err : error).

Section Environment.

(** The library functions the package calls. *)

(** [strconv.Quote], which the verb [%q] applies to a string. *)
Variable strconv_Quote : string → string.

(** [textproto.CanonicalMIMEHeaderKey], which [Header.Get] applies to a name. *)
Variable CanonicalMIMEHeaderKey : string → string.

(** Whether [gorm.Open] fails for a dialector and a config, given the handles
    opened so far; [None] is success. *)
Variable gorm_Open_error : list gorm_DB → Dialector → gorm_Config → option string.

(** The error of [conn.AutoMigrate(models...)], given what happened so far;
    [None] is nil. *)
Variable conn_AutoMigrate : list migration_event → gorm_DB → list any → option error.

(** [err.Error()] *)
Definition Error (err : error) : string :=
  match err with
  | ErrNoConfiguration apiKey =>
      "no database configuration found for API key: " +:+ strconv_Quote apiKey
  | ErrNoDatabase apiKey => "no database found for API key " +:+ strconv_Quote apiKey
  | ErrNoConnection apiKey => "no valid connection exists for API key: " +:+ apiKey
  | ErrUnsupportedDriver driver => "unsupported database driver: " +:+ driver
  | ErrGorm msg => msg
  end.

(** [gorm.Open(dialector, config)]: a handle at the next address, added to
    the handles opened so far.  The address is the number of handles opened
    so far; it is a fresh one when these sit at the addresses they were
    opened at (see [well_addressed]). *)
Definition gorm_Open (dialector : Dialector) (cfg : gorm_Config) (opened : list gorm_DB)
    : result gorm_DB * list gorm_DB :=
  match gorm_Open_error opened dialector cfg with
  | Some msg => (Err (ErrGorm msg), opened)
  | None =>
      let db := mkDB (length opened) dialector cfg in
      (Ok db, opened ++ [db])
  end.

(** [func createDB(dialector gorm.Dialector, config *gorm.Config)] *)
Definition createDB (dialector : Dialector) (cfg : gorm_Config) (opened : list gorm_DB)
    : result gorm_DB * list gorm_DB :=
  match gorm_Open dialector cfg opened with
  | (Err err, opened') => (Err err, opened')
  | (Ok db, opened') => (Ok db, opened')
  end.

(** [resolver.conns[database] = conn] *)
Definition set_conn (resolver : DBResolver) (database : string) (conn : gorm_DB) : DBResolver :=
  {| conns := <[database := conn]> (conns resolver);
     databaseConfig := databaseConfig resolver;
     config := config resolver |}.

(** The second loop of [New], over the descriptors still to open. *)
Fixpoint New_loop (drivers : list DBDriver) (resolver : DBResolver) (opened : list gorm_DB)
    : result DBResolver * list gorm_DB :=
  match drivers with
  | [] => (Ok resolver, opened)
  | dbDriver :: rest =>
      let database := dbd_Database dbDriver in
      match dialect_for dbDriver with
      | None => (Err (ErrUnsupportedDriver (dbd_Driver dbDriver)), opened)
      | Some dialect =>
          match createDB dialect (config resolver) opened with
          | (Err err, opened') => (Err err, opened')
          | (Ok conn, opened') => New_loop rest (set_conn resolver database conn) opened'
          end
      end
  end.

(** [func New(c DatabaseConfig, options ...Option) ], with
    the order in which [range c] visits the entries and the handles opened
    before the call. *)
Definition New (c : DatabaseConfig) (order : list (string * gmap string string))
    (options : list Option) (opened : list gorm_DB)
    : outcome (result DBResolver * list gorm_DB) :=
  let resolver :=
    foldl (fun resolver option => option resolver)
      {| conns := ∅; databaseConfig := c; config := Config_zero |} options in
  match DatabaseDrivers order with
  | Panics p => Panics p
  | Returns drivers => Returns (New_loop drivers resolver opened)
  end.

(** [Header.Get(key)] *)
Definition Header_Get (h : gmap string (list string)) (key : string) : string :=
  first_value (h !! CanonicalMIMEHeaderKey key).

(** The tenant identifier of a request: the header, or the query parameter of
    the same name when the header gives the empty string (the first four
    statements of the handler in [Middleware]). *)
Definition request_apiKey (g : Globals) (r : Request) : string :=
  let apiKey := Header_Get (Header r) (apiKeyHeader g) in
  if decide (apiKey = "") then Values_Get (URL_Query r) (apiKeyHeader g) else apiKey.

(** [func Middleware(next http.Handler) http.Handler];
    the handler reads [apiKeyHeader] when it serves a request. *)
Definition Middleware (resolver : DBResolver) (next : Handler) (g : Globals) : Handler :=
  fun r x =>
    let apiKey := request_apiKey g r in
    match resolveConnection resolver apiKey with
    | Err err =>
        let x := log_Println x (Error err) in
        {| resp := http_Error (resp x) (Error err) StatusInternalServerError;
           stdlog := stdlog x |}
    | Ok db =>
        let ctx := context_WithValue (req_Context r) ConnectionContextKey (any_DB db) in
        let '(dbname, _) := resolveDatabaseName resolver apiKey in
        let ctx := context_WithValue ctx DatabaseContextKey (any_string dbname) in
        next (WithContext r ctx) x
    end.

(** The loop of [AutoMigrate] over the registry entries still to visit, with
    what happened so far. *)
Fixpoint AutoMigrate_loop (order : list (string * gorm_DB)) (models : list any)
    (errorCallback : error → bool) (trace : list migration_event)
    : outcome unit * list migration_event :=
  match order with
  | [] => (Returns tt, trace)
  | (_, conn) :: rest =>
      let err := conn_AutoMigrate trace conn models in
      let trace := trace ++ [Migrated conn] in
      match err with
      | None => AutoMigrate_loop rest models errorCallback trace
      | Some e =>
          let trace := trace ++ [PolicyAsked e] in
          if errorCallback e then (Panics (PanicError e), trace)
          else AutoMigrate_loop rest models errorCallback trace
      end
  end.

(** [func AutoMigrate(models []interface{},
    errorCallback func(error) bool)], with the order in which
    [range resolver.conns] visits the registry. *)
Definition AutoMigrate (order : list (string * gorm_DB)) (models : list any)
    (errorCallback : error → bool) : outcome unit * list migration_event :=
  AutoMigrate_loop order models errorCallback [].

(** The handles on which a migration was attempted, in order. *)
Definition attempted (trace : list migration_event) : list gorm_DB :=
  omap (fun e => match e with Migrated conn => Some conn | PolicyAsked _ => None end) trace.

(** The response the middleware gives when resolution fails with [err]. *)
Definition rejection (err : error) (x : Exchange) : Exchange :=
  {| resp := http_Error (resp x) (Error err) StatusInternalServerError;
     stdlog := stdlog x ++ [Error err] |}.

(** The middleware rejects a request: whatever the downstream handler is, the
    exchange ends with the server-error response, so the handler never ran. *)
Definition rejects (resolver : DBResolver) (g : Globals) (r : Request) : Prop :=
  ∃ err, ∀ (next : Handler) (x : Exchange), Middleware resolver next g r x = rejection err x.

(** A request that carries no identifier: no value under the configured name
    in the header or in the query. *)
Definition no_identifier (g : Globals) (r : Request) : Prop :=
  Header r !! CanonicalMIMEHeaderKey (apiKeyHeader g) = None ∧
  URL_Query r !! apiKeyHeader g = None.

End Environment.

(** The [*gorm.DB] result of [resolveConnection]: nil when it fails. *)
Definition returned_handle (res : result gorm_DB) : option gorm_DB :=
  match res with
  | Ok conn => Some conn
  | Err _ => None
  end.

(** The registry after storing handles under identifiers one after the other. *)
Definition store_all (registry : gmap string gorm_DB) (pairs : list (string * gorm_DB))
    : gmap string gorm_DB :=
  foldl (fun m p => <[p.1 := p.2]> m) registry pairs.

(** ** Concrete configurations, requests and environments *)

(** A tenant entry with the two required keys. *)
Definition tenant_entry (database driver : string) : gmap string string :=
  <["database" := database]> (<["driver" := driver]> ∅).

(** [{"k1": {database: "a.db", driver: "sqlite"}}] *)
Definition config_single : DatabaseConfig :=
  <["k1" := tenant_entry "a.db" "sqlite"]> ∅.

(** Two tenants on one identifier, with different driver kinds. *)
Definition config_shared : DatabaseConfig :=
  <["k1" := tenant_entry "a.db" "sqlite"]> (<["k2" := tenant_entry "a.db" "mysql"]> ∅).

(** A tenant whose identifier is the empty string. *)
Definition config_empty_key : DatabaseConfig :=
  <["" := tenant_entry "a.db" "sqlite"]> ∅.

Definition handle_sqlite_a : gorm_DB := mkDB 0 (sqlite_Open "a.db") Config_zero.
Definition handle_mysql_a : gorm_DB := mkDB 1 (mysql_Open "a.db") Config_zero.
Definition handle_sqlite_b : gorm_DB := mkDB 1 (sqlite_Open "b.db") Config_zero.

(** A resolver whose configuration names [a.db] while its registry is empty. *)
Definition resolver_unregistered : DBResolver :=
  {| conns := ∅; databaseConfig := config_single; config := Config_zero |}.

(** The resolver [New] builds from [config_single]. *)
Definition resolver_single : DBResolver :=
  {| conns := <["a.db" := handle_sqlite_a]> ∅;
     databaseConfig := config_single;
     config := Config_zero |}.

(** A resolver state written by hand: the configuration [config_shared] with
    a registry that holds a mysql handle for [a.db]. *)
Definition resolver_shared : DBResolver :=
  {| conns := <["a.db" := handle_mysql_a]> ∅;
     databaseConfig := config_shared;
     config := Config_zero |}.

(** The resolver [New] builds from [config_empty_key]. *)
Definition resolver_empty_key : DBResolver :=
  {| conns := <["a.db" := handle_sqlite_a]> ∅;
     databaseConfig := config_empty_key;
     config := Config_zero |}.

(** A registry of two backends. *)
Definition resolver_two_backends : DBResolver :=
  {| conns := <["a.db" := handle_sqlite_a]> (<["b.db" := handle_sqlite_b]> ∅);
     databaseConfig :=
       <["k1" := tenant_entry "a.db" "sqlite"]> (<["k2" := tenant_entry "b.db" "sqlite"]> ∅);
     config := Config_zero |}.

(** An environment in which every [gorm.Open] succeeds. *)
Definition open_succeeds : list gorm_DB → Dialector → gorm_Config → option string :=
  fun _ _ _ => None.

(** An environment in which every migration fails. *)
Definition table_exists : error := ErrGorm "table already exists".

Definition migration_fails : list migration_event → gorm_DB → list any → option error :=
  fun _ _ _ => Some table_exists.

(** Quoting by surrounding with double quotes, as [strconv.Quote] does for
    strings that need no escape. *)
Definition double_quote : string := String (Ascii.ascii_of_nat 34) EmptyString.

Definition quote_plain (s : string) : string := double_quote +:+ s +:+ double_quote.

(** The canonical form of the default header name; other names are left as
    they are. *)
Definition canonical_example (key : string) : string :=
  if decide (key = "x-api-key") then "X-Api-Key" else key.

(** A request with the header [x-api-key: k1]. *)
Definition request_k1 : Request :=
  {| Header := <["X-Api-Key" := ["k1"]]> ∅; URL_Query := ∅; req_Context := [] |}.

(** A request with an empty header value and [?x-api-key=k1]. *)
Definition request_query_k1 : Request :=
  {| Header := <["X-Api-Key" := [""]]> ∅;
     URL_Query := <["x-api-key" := ["k1"]]> ∅;
     req_Context := [] |}.

(** A request with neither header nor query parameter. *)
Definition request_anonymous : Request :=
  {| Header := ∅; URL_Query := ∅; req_Context := [] |}.

(** A request for a tenant the configuration does not know. *)
Definition request_unknown : Request :=
  {| Header := <["X-Api-Key" := ["nobody"]]> ∅; URL_Query := ∅; req_Context := [] |}.

(** A downstream handler that answers 200 with the body [ok]. *)
Definition handler_ok : Handler :=
  fun _ x => {| resp := {| rw_status := Some 200; rw_body := "ok" |}; stdlog := stdlog x |}.

(** An exchange on which nothing has been written yet. *)
Definition fresh_exchange : Exchange :=
  {| resp := {| rw_status := None; rw_body := "" |}; stdlog := [] |}.

(** The distinct canonical identifiers a configuration refers to. *)
Definition canonical_identifiers (c : DatabaseConfig) : gset string :=
  list_to_set (omap (fun entry => entry.2 !! "database") (map_to_list c)).

(** Visiting orders of the configurations and of the registry above. *)
Definition order_single : list (string * gmap string string) :=
  [("k1", tenant_entry "a.db" "sqlite")].

Definition order_shared : list (string * gmap string string) :=
  [("k1", tenant_entry "a.db" "sqlite"); ("k2", tenant_entry "a.db" "mysql")].

Definition order_shared_reversed : list (string * gmap string string) :=
  [("k2", tenant_entry "a.db" "mysql"); ("k1", tenant_entry "a.db" "sqlite")].

Definition order_empty_key : list (string * gmap string string) :=
  [("", tenant_entry "a.db" "sqlite")].

Definition order_two_backends : list (string * gorm_DB) :=
  [("a.db", handle_sqlite_a); ("b.db", handle_sqlite_b)].

(** A policy that tolerates every failure, and one that tolerates none. *)
Definition tolerate_all : error → bool := fun _ => true.
Definition tolerate_none : error → bool := fun _ => false.

(** ** Notions used to state further properties *)

(** The connection string a dialector was built from. *)
Definition dialector_dsn (d : Dialector) : string :=
  match d with
  | sqlite_Open dsn => dsn
  | mysql_Open dsn => dsn
  | postgres_Open dsn => dsn
  end.

(** The driver kinds the [switch] of [New] accepts. *)
Definition supported_driver (driver : string) : Prop :=
  driver = Sqlite ∨ driver = MySQL ∨ driver = Postgres.

(** A tenant entry that has both required keys. *)
Definition entry_complete (dbmap : gmap string string) : Prop :=
  is_Some (dbmap !! "driver") ∧ is_Some (dbmap !! "database").

Global Instance entry_complete_dec (dbmap : gmap string string) :
  Decision (entry_complete dbmap).
Proof. unfold entry_complete. apply _. Defined.

(** The descriptor [DatabaseDrivers] appends for a complete entry. *)
Definition entry_fields (dbmap : gmap string string) : DBDriver :=
  mkDBDriver (default "" (dbmap !! "driver")) (default "" (dbmap !! "database")).

(** The two panic values of [DatabaseDrivers]. *)
Definition panic_no_driver : panic_value :=
  PanicString "driver not specified in configuration file".
Definition panic_no_database : panic_value :=
  PanicString "database key not specified in configuration file".

(** Further configurations, environments and requests. *)

(** Two tenants on two identifiers; [resolver_two_backends] is its resolver. *)
Definition config_two_tenants : DatabaseConfig :=
  <["k1" := tenant_entry "a.db" "sqlite"]> (<["k2" := tenant_entry "b.db" "sqlite"]> ∅).

Definition order_two_tenants : list (string * gmap string string) :=
  [("k1", tenant_entry "a.db" "sqlite"); ("k2", tenant_entry "b.db" "sqlite")].

(** A tenant entry without the [driver] key. *)
Definition config_missing_driver : DatabaseConfig :=
  <["k1" := <["database" := "a.db"]> ∅]> ∅.

Definition order_missing_driver : list (string * gmap string string) :=
  [("k1", <["database" := "a.db"]> ∅)].

(** A tenant entry with a driver kind the package does not know. *)
Definition config_unsupported : DatabaseConfig :=
  <["k1" := tenant_entry "a.db" "oracle"]> ∅.

Definition order_unsupported : list (string * gmap string string) :=
  [("k1", tenant_entry "a.db" "oracle")].

(** An environment in which every [gorm.Open] fails. *)
Definition open_refused : list gorm_DB → Dialector → gorm_Config → option string :=
  fun _ _ _ => Some "connection refused".

(** An environment in which every migration succeeds. *)
Definition migration_succeeds : list migration_event → gorm_DB → list any → option error :=
  fun _ _ _ => None.

(** A request whose header names an unknown tenant and whose query names [k1]. *)
Definition request_conflicting : Request :=
  {| Header := <["X-Api-Key" := ["nobody"]]> ∅;
     URL_Query := <["x-api-key" := ["k1"]]> ∅;
     req_Context := [] |}.

(** Two tenants on the one identifier [a.db], both with the sqlite driver. *)
Definition config_shared_sqlite : DatabaseConfig :=
  <["k1" := tenant_entry "a.db" "sqlite"]> (<["k2" := tenant_entry "a.db" "sqlite"]> ∅).

Definition order_shared_sqlite : list (string * gmap string string) :=
  [("k1", tenant_entry "a.db" "sqlite"); ("k2", tenant_entry "a.db" "sqlite")].

Definition order_shared_sqlite_reversed : list (string * gmap string string) :=
  [("k2", tenant_entry "a.db" "sqlite"); ("k1", tenant_entry "a.db" "sqlite")].

(** The second sqlite handle opened for [a.db]. *)
Definition handle_sqlite_a_second : gorm_DB := mkDB 1 (sqlite_Open "a.db") Config_zero.

(** The resolver [New] builds from [config_shared_sqlite]. *)
Definition resolver_shared_sqlite : DBResolver :=
  {| conns := <["a.db" := handle_sqlite_a_second]> ∅;
     databaseConfig := config_shared_sqlite;
     config := Config_zero |}.

(** The resolver [New] builds from [config_two_tenants] when one handle is
    open already. *)
Definition resolver_two_tenants_later : DBResolver :=
  {| conns :=
       <["a.db" := handle_sqlite_a_second]>
         (<["b.db" := mkDB 2 (sqlite_Open "b.db") Config_zero]> ∅);
     databaseConfig := config_two_tenants;
     config := Config_zero |}.

(** The handles opened so far sit at the addresses [gorm.Open] gave them: the
    handle opened as the i-th has the address i.  This holds when no handle
    has been opened and [gorm.Open] keeps it. *)
Definition well_addressed (opened : list gorm_DB) : Prop :=
  ∀ i h, opened !! i = Some h → db_addr h = i.

(** * Properties *)

Section Resolver.

Implicit Types (resolver : DBResolver) (apiKey databaseName : string) (conn : gorm_DB).

Lemma resolveConnection_Ok resolver apiKey conn :
  resolveConnection resolver apiKey = Ok conn ↔
  ∃ databaseName,
    canonical_identifier (databaseConfig resolver) apiKey = Some databaseName ∧
    conns resolver !! databaseName = Some conn.
Proof.
  unfold resolveConnection, canonical_identifier.
  destruct (databaseConfig resolver !! apiKey) as [databaseMap|]; simpl.
  - destruct (databaseMap !! "database") as [name|]; simpl.
    + destruct (conns resolver !! name) as [c|] eqn:Hc.
      * split.
        -- intros [= <-]. by exists name.
        -- intros (n & [= <-] & Hn). congruence.
      * split; [done|]. intros (n & [= <-] & Hn). congruence.
    + split; [done|]. by intros (n & ? & _).
  - split; [done|]. by intros (n & ? & _).
Qed.


Lemma elem_of_canonical_identifiers (c : DatabaseConfig) (d : string) :
  d ∈ canonical_identifiers c ↔ ∃ k, canonical_identifier c k = Some d.
Proof.
  unfold canonical_identifiers, canonical_identifier.
  rewrite elem_of_list_to_set, list_elem_of_omap. split.
  - intros ([k m] & Hin%elem_of_map_to_list & Hd). exists k. by rewrite Hin.
  - intros (k & Hk). destruct (c !! k) as [m|] eqn:Hck; simpl in Hk; [|done].
    exists (k, m). split; [by apply elem_of_map_to_list|done].
Qed.

Lemma resolveDatabaseName_Ok resolver apiKey databaseName :
  canonical_identifier (databaseConfig resolver) apiKey = Some databaseName →
  resolveDatabaseName resolver apiKey = (databaseName, None).
Proof.
  unfold resolveDatabaseName, canonical_identifier.
  destruct (databaseConfig resolver !! apiKey) as [databaseMap|]; simpl; [|done].
  destruct (databaseMap !! "database"); simpl; congruence.
Qed.

(** C4. [resolveConnection] fails with the unknown-tenant error exactly when
    the identifier has no configuration entry, with the missing-database-key
    error exactly when the entry exists and lacks the [database] key, with the
    no-connection error exactly when the canonical identifier of the entry has
    no handle in the registry, and otherwise returns the handle the registry
    stores under that canonical identifier; no other result occurs. *)
Theorem resolveConnection_cases resolver apiKey :
  (resolveConnection resolver apiKey = Err (ErrNoConfiguration apiKey) ↔
     databaseConfig resolver !! apiKey = None) ∧
  (resolveConnection resolver apiKey = Err (ErrNoDatabase apiKey) ↔
     ∃ databaseMap,
       databaseConfig resolver !! apiKey = Some databaseMap ∧
       databaseMap !! "database" = None) ∧
  (resolveConnection resolver apiKey = Err (ErrNoConnection apiKey) ↔
     ∃ databaseMap databaseName,
       databaseConfig resolver !! apiKey = Some databaseMap ∧
       databaseMap !! "database" = Some databaseName ∧
       conns resolver !! databaseName = None) ∧
  (∀ conn,
     resolveConnection resolver apiKey = Ok conn ↔
     ∃ databaseMap databaseName,
       databaseConfig resolver !! apiKey = Some databaseMap ∧
       databaseMap !! "database" = Some databaseName ∧
       conns resolver !! databaseName = Some conn) ∧
  (resolveConnection resolver apiKey = Err (ErrNoConfiguration apiKey) ∨
   resolveConnection resolver apiKey = Err (ErrNoDatabase apiKey) ∨
   resolveConnection resolver apiKey = Err (ErrNoConnection apiKey) ∨
   ∃ conn, resolveConnection resolver apiKey = Ok conn).
Proof.
  unfold resolveConnection.
  destruct (databaseConfig resolver !! apiKey) as [databaseMap|] eqn:Hentry;
    [destruct (databaseMap !! "database") as [name|] eqn:Hname;
       [destruct (conns resolver !! name) as [c|] eqn:Hconn|]|];
    split_and!; naive_solver.
Qed.

(** C3, as the code has it.  [resolveDatabaseName] looks the tenant up in the
    configuration and the [database] key up in the entry, and never consults
    the registry: replacing the registry does not change its result, it fails
    with the unknown-tenant error exactly when the tenant has no entry, with
    the missing-database-key error exactly when the entry lacks the key, it
    returns the canonical identifier exactly when the entry has one, whether
    or not the registry holds a handle for it, and it never fails with a
    no-connection error. *)
Theorem resolveDatabaseName_reads_configuration_only resolver apiKey :
  (∀ registry,
     resolveDatabaseName
       {| conns := registry;
          databaseConfig := databaseConfig resolver;
          config := config resolver |} apiKey
     = resolveDatabaseName resolver apiKey) ∧
  (resolveDatabaseName resolver apiKey = ("", Some (ErrNoConfiguration apiKey)) ↔
     databaseConfig resolver !! apiKey = None) ∧
  (resolveDatabaseName resolver apiKey = ("", Some (ErrNoDatabase apiKey)) ↔
     ∃ databaseMap,
       databaseConfig resolver !! apiKey = Some databaseMap ∧
       databaseMap !! "database" = None) ∧
  (∀ databaseName,
     resolveDatabaseName resolver apiKey = (databaseName, None) ↔
     canonical_identifier (databaseConfig resolver) apiKey = Some databaseName) ∧
  (∀ key, (resolveDatabaseName resolver apiKey).2 ≠ Some (ErrNoConnection key)).
Proof.
  unfold resolveDatabaseName, canonical_identifier; simpl.
  destruct (databaseConfig resolver !! apiKey) as [databaseMap|] eqn:Hentry; simpl.
  - destruct (databaseMap !! "database") as [name|] eqn:Hname; simpl.
    + repeat split; try done; try congruence.
      intros (m & [= <-] & ?). congruence.
    + repeat split; try done. intros _. by exists databaseMap.
  - repeat split; try done. by intros (m & ? & _).
Qed.

(** C8. Two tenants whose entries map to the same canonical identifier get
    the identical handle from [resolveConnection]: the pointers returned are
    equal, and when the registry holds a handle for the identifier both calls
    return that very handle. *)
Theorem resolveConnection_shared_identifier resolver T1 T2 databaseName :
  canonical_identifier (databaseConfig resolver) T1 = Some databaseName →
  canonical_identifier (databaseConfig resolver) T2 = Some databaseName →
  returned_handle (resolveConnection resolver T1)
    = returned_handle (resolveConnection resolver T2) ∧
  (∀ conn, resolveConnection resolver T1 = Ok conn ↔ resolveConnection resolver T2 = Ok conn) ∧
  (∀ conn,
     conns resolver !! databaseName = Some conn →
     resolveConnection resolver T1 = Ok conn ∧ resolveConnection resolver T2 = Ok conn).
Proof.
  intros H1 H2.
  assert (∀ T conn,
            canonical_identifier (databaseConfig resolver) T = Some databaseName →
            (resolveConnection resolver T = Ok conn ↔
             conns resolver !! databaseName = Some conn)) as Hone.
  { intros T conn HT. rewrite resolveConnection_Ok. split.
    - intros (n & Hn & Hc). congruence.
    - intros Hc. by exists databaseName. }
  assert (∀ conn, resolveConnection resolver T1 = Ok conn ↔
                  resolveConnection resolver T2 = Ok conn) as Hiff.
  { intros conn. by rewrite (Hone T1), (Hone T2). }
  split; [|split; [done|]].
  - destruct (resolveConnection resolver T1) as [c1|e1] eqn:E1.
    + pose proof (proj1 (Hiff c1) eq_refl) as E2. by rewrite E2.
    + destruct (resolveConnection resolver T2) as [c2|e2] eqn:E2; [|done].
      pose proof (proj2 (Hiff c2) eq_refl). congruence.
  - intros conn Hc. split; by apply Hone.
Qed.

End Resolver.

(** ** The registry built by [New] *)

Section Initialization.

Variable gorm_Open_error : list gorm_DB → Dialector → gorm_Config → option string.

(** In a registry filled by successive stores, an identifier holds the handle
    stored last under it. *)
Lemma store_all_lookup (pairs : list (string * gorm_DB)) (registry : gmap string gorm_DB)
    (d : string) (h : gorm_DB) :
  store_all registry pairs !! d = Some h ↔
  (∃ i, pairs !! i = Some (d, h) ∧
        ∀ j p, i < j → pairs !! j = Some p → p.1 ≠ d) ∨
  ((∀ p, p ∈ pairs → p.1 ≠ d) ∧ registry !! d = Some h).
Proof.
  unfold store_all.
  induction pairs as [|[k v] ps IH] in registry |- *; simpl.
  - split.
    + intros Hm. right. split; [|done]. intros p Hp. by apply elem_of_nil in Hp.
    + intros [(i & Hi & _) | [_ Hm]]; [|done]. by rewrite lookup_nil in Hi.
  - rewrite IH. split.
    + intros [(i & Hi & Hlast) | (Hnone & Hm)].
      * left. exists (S i). split; [done|].
        intros [|j] p Hj Hp; [lia|]. apply (Hlast j p); [lia|done].
      * destruct (decide (k = d)) as [->|Hne].
        -- rewrite lookup_insert_eq in Hm. injection Hm as <-.
           left. exists 0. split; [done|].
           intros [|j] p Hj Hp; [lia|]. apply Hnone.
           by eapply list_elem_of_lookup_2.
        -- rewrite lookup_insert_ne in Hm by done. right. split; [|done].
           intros p [->|Hp]%elem_of_cons; [done|by apply Hnone].
    + intros [(i & Hi & Hlast) | (Hnone & Hm)].
      * destruct i as [|i]; simpl in Hi.
        -- injection Hi as -> ->. right. split.
           ++ intros p [j Hj]%list_elem_of_lookup_1.
              apply (Hlast (S j) p); [lia|done].
           ++ by rewrite lookup_insert_eq.
        -- left. exists i. split; [done|].
           intros j p Hj Hp. apply (Hlast (S j) p); [lia|done].
      * right. split.
        -- intros p Hp. apply Hnone, elem_of_cons. by right.
        -- rewrite lookup_insert_ne; [done|].
           apply (Hnone (k, v)), elem_of_cons. by left.
Qed.

(** Its keys are the old keys and the identifiers stored. *)
Lemma store_all_is_Some (pairs : list (string * gorm_DB)) (registry : gmap string gorm_DB)
    (d : string) :
  is_Some (store_all registry pairs !! d) ↔ is_Some (registry !! d) ∨ d ∈ pairs.*1.
Proof.
  unfold store_all.
  induction pairs as [|[k v] ps IH] in registry |- *; simpl.
  - rewrite elem_of_nil. tauto.
  - rewrite IH, lookup_insert_is_Some, elem_of_cons.
    destruct (decide (k = d)); naive_solver.
Qed.

(** Options built with [GormConfig] leave the registry and the configuration
    of the resolver as they are. *)
Lemma options_keep_maps (options : list Option) (resolver : DBResolver) :
  Forall (fun o => ∃ cfg, o = GormConfig cfg) options →
  conns (foldl (fun resolver option => option resolver) resolver options) = conns resolver ∧
  databaseConfig (foldl (fun resolver option => option resolver) resolver options)
    = databaseConfig resolver.
Proof.
  intros Hopts. induction Hopts as [|o os [cfg ->] _ IH] in resolver |- *; simpl; [done|].
  destruct (IH (GormConfig cfg resolver)) as [-> ->]. done.
Qed.

(** When [DatabaseDrivers] returns, every entry visited has both keys and the
    slice lists their descriptors in the order of the visit. *)
Lemma DatabaseDrivers_loop_Returns (entries : list (string * gmap string string))
    (acc drivers : list DBDriver) :
  DatabaseDrivers_loop entries acc = Returns drivers →
  ∃ found,
    drivers = acc ++ found ∧
    Forall2 (fun entry d => entry_descriptor entry.2 = Returns d) entries found.
Proof.
  induction entries as [|[k dbmap] rest IH] in acc |- *; simpl.
  - intros [= <-]. exists []. by rewrite app_nil_r.
  - destruct (entry_descriptor dbmap) as [d|p] eqn:Hd; [|done].
    intros (found & -> & Hall)%IH. exists (d :: found).
    rewrite <- app_assoc. split; [done|]. by constructor.
Qed.

Lemma entry_descriptor_Returns (dbmap : gmap string string) (d : DBDriver) :
  entry_descriptor dbmap = Returns d ↔
  dbmap !! "driver" = Some (dbd_Driver d) ∧ dbmap !! "database" = Some (dbd_Database d).
Proof.
  unfold entry_descriptor. destruct d as [drv dbn]; simpl.
  destruct (dbmap !! "driver") as [x|]; [destruct (dbmap !! "database") as [y|]|];
    naive_solver.
Qed.

(** When the loop of [New] ends without error, it has opened one handle per
    descriptor, in order, at fresh addresses, and stored each under the
    identifier of its descriptor. *)
Lemma New_loop_Ok (drivers : list DBDriver) (resolver resolver' : DBResolver)
    (opened opened' : list gorm_DB) :
  New_loop gorm_Open_error drivers resolver opened = (Ok resolver', opened') →
  ∃ handles,
    opened' = opened ++ handles ∧
    Forall2 (fun d h => dialect_for d = Some (db_dialector h) ∧ db_config h = config resolver)
      drivers handles ∧
    (∀ i h, handles !! i = Some h → db_addr h = length opened + i) ∧
    databaseConfig resolver' = databaseConfig resolver ∧
    config resolver' = config resolver ∧
    conns resolver' = store_all (conns resolver) (zip (dbd_Database <$> drivers) handles).
Proof.
  induction drivers as [|d ds IH] in resolver, opened |- *; simpl.
  - intros [= <- <-]. exists []. rewrite app_nil_r. by split_and!.
  - destruct (dialect_for d) as [dialect|] eqn:Hdialect; [|done].
    unfold createDB, gorm_Open.
    destruct (gorm_Open_error opened dialect (config resolver)) as [msg|]; [done|].
    intros (hs & -> & Hall & Haddr & Hcfg & Hconf & Hconns)%IH. simpl in *.
    exists (mkDB (length opened) dialect (config resolver) :: hs).
    rewrite <- app_assoc. split_and!; try done.
    + by constructor.
    + intros [|i] h Hi; simpl in Hi.
      * injection Hi as <-. simpl. lia.
      * rewrite (Haddr i h Hi), length_app. simpl. lia.
Qed.

Implicit Types (c : DatabaseConfig) (order : list (string * gmap string string)).

(** What a successful [New] has done, in terms of the entries visited. *)
Lemma New_Ok c order (options : list Option) (opened opened' : list gorm_DB)
    (resolver : DBResolver) :
  Forall (fun o => ∃ cfg, o = GormConfig cfg) options →
  New gorm_Open_error c order options opened = Returns (Ok resolver, opened') →
  ∃ (identifiers : list string) (handles : list gorm_DB),
    opened' = opened ++ handles ∧
    length identifiers = length order ∧
    length handles = length order ∧
    (∀ i k m, order !! i = Some (k, m) →
       ∃ driver database h,
         m !! "driver" = Some driver ∧ m !! "database" = Some database ∧
         identifiers !! i = Some database ∧ handles !! i = Some h ∧
         dialect_for (mkDBDriver driver database) = Some (db_dialector h) ∧
         db_addr h = length opened + i) ∧
    databaseConfig resolver = c ∧
    conns resolver = store_all ∅ (zip identifiers handles).
Proof.
  intros Hopts. unfold New, DatabaseDrivers.
  destruct (DatabaseDrivers_loop order []) as [drivers|p] eqn:Hdrivers; [|done].
  apply DatabaseDrivers_loop_Returns in Hdrivers as (found & -> & Hfound). simpl.
  intros [= Hloop].
  apply New_loop_Ok in Hloop as (handles & -> & Hopen & Haddr & Hcfg & _ & Hconns).
  destruct (options_keep_maps options
              {| conns := ∅; databaseConfig := c; config := Config_zero |} Hopts)
    as [Hc0 Hd0].
  rewrite Hc0 in Hconns. rewrite Hd0 in Hcfg. simpl in *.
  exists (dbd_Database <$> found), handles.
  pose proof (Forall2_length _ _ _ Hfound) as Hlen1.
  pose proof (Forall2_length _ _ _ Hopen) as Hlen2.
  split_and!; try done.
  - by rewrite length_fmap.
  - congruence.
  - intros i k m Hi.
    destruct (Forall2_lookup_l _ _ _ _ _ Hfound Hi) as (d & Hd & Hdesc).
    destruct (Forall2_lookup_l _ _ _ _ _ Hopen Hd) as (h & Hh & Hdial & _).
    apply entry_descriptor_Returns in Hdesc as [Hdrv Hdbn]. simpl in *.
    exists (dbd_Driver d), (dbd_Database d), h. split_and!; try done.
    + by rewrite list_lookup_fmap, Hd.
    + by apply Haddr.
Qed.

(** The registry of a successful [New] has exactly the canonical identifiers
    of the configuration as its keys. *)
Lemma New_registry_keys c order (options : list Option) (opened opened' : list gorm_DB)
    (resolver : DBResolver) :
  go_range c order →
  Forall (fun o => ∃ cfg, o = GormConfig cfg) options →
  New gorm_Open_error c order options opened = Returns (Ok resolver, opened') →
  databaseConfig resolver = c ∧
  ∀ d, is_Some (conns resolver !! d) ↔ ∃ k, canonical_identifier c k = Some d.
Proof.
  intros Hrange Hopts HNew.
  destruct (New_Ok _ _ _ _ _ _ Hopts HNew)
    as (ids & handles & -> & Hlen1 & Hlen2 & Hentry & Hcfg & Hconns).
  split; [done|]. intros d.
  rewrite Hconns, store_all_is_Some, fst_zip by lia.
  rewrite lookup_empty. split.
  - intros [[? [=]] | [i Hi]%list_elem_of_lookup_1].
    assert (i < length order) as Hlt by (apply lookup_lt_Some in Hi; lia).
    apply lookup_lt_is_Some in Hlt as [[k m] Hkm].
    destruct (Hentry i k m Hkm) as (drv & dbn & h & _ & Hdbn & Hid & _).
    assert (c !! k = Some m) as Hck.
    { apply elem_of_map_to_list. rewrite <- Hrange. by eapply list_elem_of_lookup_2. }
    exists k. unfold canonical_identifier. rewrite Hck. simpl. congruence.
  - intros (k & Hk). unfold canonical_identifier in Hk.
    destruct (c !! k) as [m|] eqn:Hck; simpl in Hk; [|done].
    apply elem_of_map_to_list in Hck. rewrite <- Hrange in Hck.
    apply list_elem_of_lookup_1 in Hck as [i Hi].
    destruct (Hentry i k m Hi) as (drv & dbn & h & _ & Hdbn & Hid & _).
    right. apply (list_elem_of_lookup_2 _ i). congruence.
Qed.

(** C2, as the code has it.  A successful [New] opens one connection per
    tenant entry of the configuration, not one per distinct identifier: the
    handles opened are as many as the entries, they are distinct instances,
    and the handle of an entry is opened with the driver kind of that very
    entry.  The registry stores one handle per distinct canonical identifier
    of the configuration, namely the handle opened for the entry visited
    last among those naming the identifier, and its keys are exactly the
    distinct canonical identifiers. *)
Theorem New_opens_one_connection_per_entry c order (options : list Option)
    (opened opened' : list gorm_DB) (resolver : DBResolver) :
  go_range c order →
  Forall (fun o => ∃ cfg, o = GormConfig cfg) options →
  New gorm_Open_error c order options opened = Returns (Ok resolver, opened') →
  ∃ handles,
    opened' = opened ++ handles ∧
    length handles = size c ∧
    NoDup handles ∧
    (∀ i k m, order !! i = Some (k, m) →
       ∃ driver database h,
         m !! "driver" = Some driver ∧ m !! "database" = Some database ∧
         handles !! i = Some h ∧
         dialect_for (mkDBDriver driver database) = Some (db_dialector h)) ∧
    (∀ d h,
       conns resolver !! d = Some h ↔
       ∃ i k m,
         order !! i = Some (k, m) ∧ m !! "database" = Some d ∧ handles !! i = Some h ∧
         ∀ j k' m', i < j → order !! j = Some (k', m') → m' !! "database" ≠ Some d) ∧
    dom (conns resolver) = canonical_identifiers c.
Proof.
  intros Hrange Hopts HNew.
  destruct (New_registry_keys _ _ _ _ _ _ Hrange Hopts HNew) as [_ Hkeys].
  destruct (New_Ok _ _ _ _ _ _ Hopts HNew)
    as (ids & handles & -> & Hlen1 & Hlen2 & Hentry & Hcfg & Hconns).
  assert (∀ j, j < length order → ∃ k m, order !! j = Some (k, m)) as Hat.
  { intros j [[k m] Hj]%lookup_lt_is_Some. eauto. }
  exists handles. split_and!; try done.
  - rewrite Hlen2, <- length_map_to_list. by apply Permutation_length.
  - apply NoDup_alt. intros i j h Hi Hj.
    destruct (Hat i) as (k1 & m1 & Ho1); [apply lookup_lt_Some in Hi; lia|].
    destruct (Hat j) as (k2 & m2 & Ho2); [apply lookup_lt_Some in Hj; lia|].
    destruct (Hentry i k1 m1 Ho1) as (? & ? & h1 & _ & _ & _ & Hh1 & _ & Ha1).
    destruct (Hentry j k2 m2 Ho2) as (? & ? & h2 & _ & _ & _ & Hh2 & _ & Ha2).
    assert (h1 = h) as -> by congruence. assert (h2 = h) as -> by congruence. lia.
  - intros i k m Hi.
    destruct (Hentry i k m Hi) as (drv & dbn & h & ? & ? & _ & ? & ? & _).
    by exists drv, dbn, h.
  - intros d h. rewrite Hconns, store_all_lookup. split.
    + intros [(i & [Hid Hh]%lookup_zip_Some & Hlast) | [_ Hempty]];
        [|by rewrite lookup_empty in Hempty].
      destruct (Hat i) as (k & m & Hkm); [apply lookup_lt_Some in Hh; lia|].
      destruct (Hentry i k m Hkm) as (drv & dbn & h' & _ & Hdbn & Hid' & _).
      exists i, k, m. split_and!; try done; [congruence|].
      intros j k' m' Hj Hkm' Hd.
      destruct (Hentry j k' m' Hkm') as (? & dbn' & hj & _ & Hdbn' & Hidj & Hhj & _).
      apply (Hlast j (d, hj)); [done| |done].
      apply lookup_zip_Some. split; [congruence|done].
    + intros (i & k & m & Hkm & Hd & Hh & Hlast). left. exists i. split.
      * apply lookup_zip_Some. split; [|done].
        destruct (Hentry i k m Hkm) as (? & dbn & ? & _ & Hdbn & Hid & _). congruence.
      * intros j [d' h'] Hj [Hidj Hhj]%lookup_zip_Some Heq. simpl in Heq. subst d'.
        destruct (Hat j) as (k' & m' & Hkm'); [apply lookup_lt_Some in Hhj; lia|].
        destruct (Hentry j k' m' Hkm') as (? & dbn' & ? & _ & Hdbn' & Hidj' & _).
        apply (Hlast j k' m' Hj Hkm'). congruence.
  - apply set_eq. intros d.
    rewrite elem_of_dom, elem_of_canonical_identifiers. apply Hkeys.
Qed.

(** C7. When [New] returns a resolver without error, [resolveConnection]
    succeeds for every tenant identifier that is a key of the configuration:
    it returns a handle, the same at every call, which [New] opened and which
    the registry stores under the tenant's canonical identifier, and none of
    the three error branches is taken. *)
Theorem New_resolves_every_tenant c order (options : list Option)
    (opened opened' : list gorm_DB) (resolver : DBResolver) :
  go_range c order →
  Forall (fun o => ∃ cfg, o = GormConfig cfg) options →
  New gorm_Open_error c order options opened = Returns (Ok resolver, opened') →
  ∀ T, is_Some (c !! T) →
    ∃ conn databaseName,
      resolveConnection resolver T = Ok conn ∧
      canonical_identifier c T = Some databaseName ∧
      conns resolver !! databaseName = Some conn ∧
      resolveConnection resolver T ≠ Err (ErrNoConfiguration T) ∧
      resolveConnection resolver T ≠ Err (ErrNoDatabase T) ∧
      resolveConnection resolver T ≠ Err (ErrNoConnection T).
Proof.
  intros Hrange Hopts HNew T [m HT].
  destruct (New_registry_keys _ _ _ _ _ _ Hrange Hopts HNew) as [Hcfg Hkeys].
  destruct (New_Ok _ _ _ _ _ _ Hopts HNew)
    as (ids & handles & _ & _ & _ & Hentry & _ & _).
  pose proof HT as Hin. apply elem_of_map_to_list in Hin. rewrite <- Hrange in Hin.
  apply list_elem_of_lookup_1 in Hin as [i Hi].
  destruct (Hentry i T m Hi) as (drv & dbn & _ & _ & Hdbn & _).
  assert (canonical_identifier c T = Some dbn) as Hcanon.
  { unfold canonical_identifier. by rewrite HT. }
  destruct (proj2 (Hkeys dbn)) as [conn Hconn]; [by exists T|].
  assert (resolveConnection resolver T = Ok conn) as Hres.
  { apply resolveConnection_Ok. exists dbn. by rewrite Hcfg. }
  exists conn, dbn. rewrite Hres. by split_and!.
Qed.

End Initialization.

(** ** The middleware *)

Section Binder.

Variable strconv_Quote : string → string.
Variable CanonicalMIMEHeaderKey : string → string.

Implicit Types (resolver : DBResolver) (g : Globals) (r : Request) (x : Exchange)
  (next : Handler).

Local Abbreviation apiKey_of := (request_apiKey CanonicalMIMEHeaderKey).
Local Abbreviation serve := (Middleware strconv_Quote CanonicalMIMEHeaderKey).

Lemma Middleware_Err resolver next g r x err :
  resolveConnection resolver (apiKey_of g r) = Err err →
  serve resolver next g r x = rejection strconv_Quote err x.
Proof. intros Hres. unfold Middleware. by rewrite Hres. Qed.

Lemma Middleware_Ok resolver next g r x conn :
  resolveConnection resolver (apiKey_of g r) = Ok conn →
  serve resolver next g r x
  = next (WithContext r
            (context_WithValue
               (context_WithValue (req_Context r) ConnectionContextKey (any_DB conn))
               DatabaseContextKey
               (any_string (resolveDatabaseName resolver (apiKey_of g r)).1))) x.
Proof.
  intros Hres. unfold Middleware. rewrite Hres.
  by destruct (resolveDatabaseName resolver (apiKey_of g r)).
Qed.

(** The middleware rejects a request exactly when the resolution of its
    identifier fails. *)
Lemma rejects_iff resolver g r :
  rejects strconv_Quote CanonicalMIMEHeaderKey resolver g r ↔
  ∃ err, resolveConnection resolver (apiKey_of g r) = Err err.
Proof.
  split.
  - intros [err Hrej].
    destruct (resolveConnection resolver (apiKey_of g r)) as [conn|e] eqn:Hres; [|eauto].
    exfalso.
    pose proof (Hrej (fun _ x => x) fresh_exchange) as Heq.
    rewrite (Middleware_Ok _ _ _ _ _ _ Hres) in Heq.
    by apply (f_equal stdlog) in Heq.
  - intros [err Hres]. exists err. intros next x. by apply Middleware_Err.
Qed.

Lemma apiKey_no_identifier g r :
  no_identifier CanonicalMIMEHeaderKey g r → apiKey_of g r = "".
Proof.
  intros [Hh Hq]. unfold request_apiKey, Header_Get, Values_Get.
  by rewrite Hh, Hq.
Qed.

(** C5, as the code has it.  The middleware takes the tenant identifier from
    the header named by [apiKeyHeader] when that gives a non-empty value, and
    from the query parameter of the same name when the header is absent or
    empty.  Whenever the resolution of that identifier fails, it logs the
    error, answers with status 500 and the error message as body, and the
    result does not depend on the downstream handler, which is not invoked.
    A request carrying no identifier in either source is resolved as the
    empty-string tenant: it is rejected exactly when that resolution fails. *)
Theorem Middleware_rejects_failed_resolution resolver g r :
  (Header_Get CanonicalMIMEHeaderKey (Header r) (apiKeyHeader g) ≠ "" →
     apiKey_of g r = Header_Get CanonicalMIMEHeaderKey (Header r) (apiKeyHeader g)) ∧
  (Header r !! CanonicalMIMEHeaderKey (apiKeyHeader g) = None ∨
   Header_Get CanonicalMIMEHeaderKey (Header r) (apiKeyHeader g) = "" →
     apiKey_of g r = Values_Get (URL_Query r) (apiKeyHeader g)) ∧
  (∀ err,
     resolveConnection resolver (apiKey_of g r) = Err err →
     ∀ next x,
       serve resolver next g r x = rejection strconv_Quote err x ∧
       (rw_status (resp x) = None →
          rw_status (resp (serve resolver next g r x)) = Some StatusInternalServerError) ∧
       rw_body (resp (serve resolver next g r x))
         = rw_body (resp x) +:+ Error strconv_Quote err +:+ newline ∧
       stdlog (serve resolver next g r x) = stdlog x ++ [Error strconv_Quote err]) ∧
  (no_identifier CanonicalMIMEHeaderKey g r →
     apiKey_of g r = "" ∧
     (rejects strconv_Quote CanonicalMIMEHeaderKey resolver g r ↔
      ∃ err, resolveConnection resolver "" = Err err)).
Proof.
  split_and!.
  - intros Hne. unfold request_apiKey. by case_decide.
  - intros Hempty.
    assert (Header_Get CanonicalMIMEHeaderKey (Header r) (apiKeyHeader g) = "") as Hget.
    { destruct Hempty as [Habs|Hget]; [|done]. unfold Header_Get. by rewrite Habs. }
    unfold request_apiKey. by case_decide.
  - intros err Hres next x. rewrite (Middleware_Err _ _ _ _ _ _ Hres). simpl.
    split_and!; try done. intros Hnone. by rewrite Hnone.
  - intros Hno. pose proof (apiKey_no_identifier _ _ Hno) as Hkey.
    split; [done|]. by rewrite rejects_iff, Hkey.
Qed.

(** C6. When the identifier of a request resolves, the middleware invokes the
    downstream handler once, on the untouched exchange, with a copy of the
    request whose context extends the request's context with the resolved
    handle and the tenant's canonical identifier; on that request [DB] returns
    exactly the resolved handle and [DBName] exactly the canonical identifier,
    and every other context value is the one of the incoming request. *)
Theorem Middleware_binds_resolved_handle resolver next g r x conn :
  resolveConnection resolver (apiKey_of g r) = Ok conn →
  ∃ r' databaseName,
    serve resolver next g r x = next r' x ∧
    canonical_identifier (databaseConfig resolver) (apiKey_of g r) = Some databaseName ∧
    conns resolver !! databaseName = Some conn ∧
    DB resolver r' = Returns conn ∧
    DBName resolver r' = Returns databaseName ∧
    Header r' = Header r ∧
    URL_Query r' = URL_Query r ∧
    req_Context r'
      = context_WithValue
          (context_WithValue (req_Context r) ConnectionContextKey (any_DB conn))
          DatabaseContextKey (any_string databaseName) ∧
    (∀ key, key ≠ ConnectionContextKey → key ≠ DatabaseContextKey →
       context_Value (req_Context r') key = context_Value (req_Context r) key).
Proof.
  intros Hres.
  pose proof Hres as (name & Hname & Hconn)%resolveConnection_Ok.
  eexists _, name. rewrite (Middleware_Ok _ _ _ _ _ _ Hres).
  rewrite (resolveDatabaseName_Ok _ _ _ Hname). simpl.
  split_and!; try done.
  intros key Hk1 Hk2. simpl.
  rewrite !decide_False by congruence. done.
Qed.

(** C10. Whenever [resolveConnection] returns a handle, [resolveDatabaseName]
    returns for the same identifier with a nil error, and its result is the
    registry key under which that handle is stored; so the error the
    middleware drops is nil, and the name it binds into the request context
    names the registry entry of the handle it binds. *)
Theorem resolveDatabaseName_succeeds_with_resolveConnection resolver apiKey conn :
  resolveConnection resolver apiKey = Ok conn →
  ∃ databaseName,
    resolveDatabaseName resolver apiKey = (databaseName, None) ∧
    conns resolver !! databaseName = Some conn ∧
    ∀ next g r x,
      apiKey_of g r = apiKey →
      ∃ r', serve resolver next g r x = next r' x ∧
            DB resolver r' = Returns conn ∧
            DBName resolver r' = Returns databaseName.
Proof.
  intros Hres.
  pose proof Hres as (name & Hname & Hconn)%resolveConnection_Ok.
  exists name. split_and!; [by apply resolveDatabaseName_Ok|done|].
  intros next g r x <-. eexists.
  rewrite (Middleware_Ok _ _ _ _ _ _ Hres), (resolveDatabaseName_Ok _ _ _ Hname).
  by split_and!.
Qed.


End Binder.

(** ** The bulk schema operator *)

Section Migration.

Variable conn_AutoMigrate : list migration_event → gorm_DB → list any → option error.

Implicit Types (order : list (string * gorm_DB)) (models : list any)
  (trace : list migration_event).

(** With a callback that returns [false] for every error, the loop visits
    every backend and returns, whatever the migrations answer. *)
Lemma AutoMigrate_loop_callback_false order models errorCallback trace :
  (∀ e, errorCallback e = false) →
  ∃ trace',
    AutoMigrate_loop conn_AutoMigrate order models errorCallback trace = (Returns tt, trace') ∧
    attempted trace' = attempted trace ++ order.*2.
Proof.
  intros Hfalse. unfold attempted.
  induction order as [|[k conn] rest IH] in trace |- *; simpl.
  - exists trace. by rewrite app_nil_r.
  - destruct (conn_AutoMigrate trace conn models) as [e|].
    + rewrite Hfalse.
      destruct (IH ((trace ++ [Migrated conn]) ++ [PolicyAsked e])) as (trace' & Hrun & Hseen).
      exists trace'. split; [done|].
      rewrite Hseen, !omap_app. simpl. by rewrite app_nil_r, <- app_assoc.
    + destruct (IH (trace ++ [Migrated conn])) as (trace' & Hrun & Hseen).
      exists trace'. split; [done|].
      rewrite Hseen, !omap_app. simpl. by rewrite <- app_assoc.
Qed.

(** When the migration of the backend visited first fails and the callback
    returns [true] for the error, the loop panics with that error and visits
    no further backend. *)
Lemma AutoMigrate_loop_callback_true k conn rest models errorCallback trace e :
  conn_AutoMigrate trace conn models = Some e →
  errorCallback e = true →
  AutoMigrate_loop conn_AutoMigrate ((k, conn) :: rest) models errorCallback trace
  = (Panics (PanicError e), trace ++ [Migrated conn; PolicyAsked e]).
Proof.
  intros Hfail Htrue. simpl. rewrite Hfail, Htrue. by rewrite <- app_assoc.
Qed.

End Migration.

(** C1, evaluated on the code.  On a registry of two backends whose
    migrations both fail, a callback that returns [true] (tolerate) for
    every error makes [AutoMigrate] panic at the first backend, the second
    one never being attempted, and a callback that returns [false] (abort)
    makes it attempt both backends and return: the reverse of the documented
    behaviour. *)
Theorem AutoMigrate_callback_is_inverted :
  go_range (conns resolver_two_backends) order_two_backends ∧
  AutoMigrate migration_fails order_two_backends [] tolerate_all
    = (Panics (PanicError table_exists),
       [Migrated handle_sqlite_a; PolicyAsked table_exists]) ∧
  attempted (AutoMigrate migration_fails order_two_backends [] tolerate_all).2
    = [handle_sqlite_a] ∧
  AutoMigrate migration_fails order_two_backends [] tolerate_none
    = (Returns tt,
       [Migrated handle_sqlite_a; PolicyAsked table_exists;
        Migrated handle_sqlite_b; PolicyAsked table_exists]) ∧
  attempted (AutoMigrate migration_fails order_two_backends [] tolerate_none).2
    = [handle_sqlite_a; handle_sqlite_b].
Proof.
  split_and!; try reflexivity.
  unfold go_range. vm_compute; reflexivity.
Qed.

(** * Concrete runs *)

(** The example of the specification: with [{"k1": {database: "a.db",
    driver: "sqlite"}}], [New] opens one sqlite handle for [a.db]. *)
Example New_config_single :
  go_range config_single order_single ∧
  New open_succeeds config_single order_single [] []
    = Returns (Ok resolver_single, [handle_sqlite_a]).
Proof. split; [unfold go_range; vm_compute; reflexivity | reflexivity]. Qed.

(** With that resolver, a request without identifier is answered 500 and the
    downstream handler does not run. *)
Example Middleware_anonymous_single :
  Middleware quote_plain canonical_example resolver_single handler_ok
    initial_Globals request_anonymous fresh_exchange
  = rejection quote_plain (ErrNoConfiguration "") fresh_exchange ∧
  rw_status (resp (rejection quote_plain (ErrNoConfiguration "") fresh_exchange)) = Some 500.
Proof. split; reflexivity. Qed.

(** The query parameter is used when the header value is empty. *)
Example request_apiKey_falls_back :
  request_apiKey canonical_example initial_Globals request_query_k1 = "k1" ∧
  request_apiKey canonical_example initial_Globals request_k1 = "k1" ∧
  request_apiKey canonical_example initial_Globals request_anonymous = "".
Proof. split_and!; reflexivity. Qed.

(** After [SetHeaderName "apikey"] the header and the query parameter
    [apikey] are read, not the default name. *)
Example SetHeaderName_apikey :
  apiKeyHeader (SetHeaderName "apikey" initial_Globals) = "apikey" ∧
  request_apiKey canonical_example (SetHeaderName "apikey" initial_Globals)
    {| Header := <["X-Api-Key" := ["k1"]]> ∅;
       URL_Query := <["apikey" := ["k2"]]> ∅;
       req_Context := [] |}
  = "k2".
Proof. split; reflexivity. Qed.

(** An unsupported driver kind makes [New] fail without a resolver. *)
Example New_unsupported_driver :
  New open_succeeds (<["k1" := tenant_entry "a.db" "oracle"]> ∅)
    [("k1", tenant_entry "a.db" "oracle")] [] []
  = Returns (Err (ErrUnsupportedDriver "oracle"), []).
Proof. reflexivity. Qed.

(** An entry without the [driver] key makes [New] panic. *)
Example New_missing_driver :
  New open_succeeds (<["k1" := <["database" := "a.db"]> ∅]> ∅)
    [("k1", <["database" := "a.db"]> ∅)] [] []
  = Panics (PanicString "driver not specified in configuration file").
Proof. reflexivity. Qed.

(** * Instances of the theorems and counterexamples *)

(** C2, the claim as stated fails: for two sqlite tenants naming the one
    identifier [a.db], [New] opens two connections to [a.db], and the registry
    keeps the handle opened second, for the entry visited last, while the
    handle opened first stays open and unused; this is so in either visiting
    order. *)
Lemma New_opens_shared_identifier_twice :
  size (canonical_identifiers config_shared_sqlite) = 1 ∧
  go_range config_shared_sqlite order_shared_sqlite ∧
  New open_succeeds config_shared_sqlite order_shared_sqlite [] []
    = Returns (Ok resolver_shared_sqlite, [handle_sqlite_a; handle_sqlite_a_second]) ∧
  conns resolver_shared_sqlite !! "a.db" = Some handle_sqlite_a_second ∧
  handle_sqlite_a ≠ handle_sqlite_a_second ∧
  go_range config_shared_sqlite order_shared_sqlite_reversed ∧
  New open_succeeds config_shared_sqlite order_shared_sqlite_reversed [] []
    = Returns (Ok resolver_shared_sqlite, [handle_sqlite_a; handle_sqlite_a_second]) ∧
  ¬ (∀ (c : DatabaseConfig) order resolver opened',
       go_range c order →
       New open_succeeds c order [] [] = Returns (Ok resolver, opened') →
       length opened' = size (canonical_identifiers c)).
Proof.
  assert (go_range config_shared_sqlite order_shared_sqlite) as Hrange
    by (unfold go_range; vm_compute; reflexivity).
  assert (New open_succeeds config_shared_sqlite order_shared_sqlite [] []
          = Returns (Ok resolver_shared_sqlite, [handle_sqlite_a; handle_sqlite_a_second]))
    as HNew by (vm_compute; reflexivity).
  split_and!.
  - vm_compute; reflexivity.
  - exact Hrange.
  - exact HNew.
  - vm_compute; reflexivity.
  - intros Heq. discriminate Heq.
  - unfold go_range. vm_compute. apply perm_swap.
  - vm_compute; reflexivity.
  - intros Hclaim. specialize (Hclaim _ _ _ _ Hrange HNew).
    vm_compute in Hclaim. discriminate Hclaim.
Qed.

(** The amended C2 on the same configuration: two entries, two handles, one
    registry key. *)
Lemma New_opens_one_connection_per_entry_witness :
  go_range config_shared_sqlite order_shared_sqlite ∧
  Forall (fun o => ∃ cfg, o = GormConfig cfg) [] ∧
  New open_succeeds config_shared_sqlite order_shared_sqlite [] []
    = Returns (Ok resolver_shared_sqlite, [handle_sqlite_a; handle_sqlite_a_second]) ∧
  ∃ handles,
    [handle_sqlite_a; handle_sqlite_a_second] = [] ++ handles ∧
    length handles = size config_shared_sqlite ∧
    NoDup handles.
Proof.
  assert (go_range config_shared_sqlite order_shared_sqlite) as Hrange
    by (unfold go_range; vm_compute; reflexivity).
  assert (Forall (fun o : Option => ∃ cfg, o = GormConfig cfg) []) as Hopts
    by constructor.
  assert (New open_succeeds config_shared_sqlite order_shared_sqlite [] []
          = Returns (Ok resolver_shared_sqlite, [handle_sqlite_a; handle_sqlite_a_second]))
    as HNew by (vm_compute; reflexivity).
  split; [exact Hrange|]. split; [exact Hopts|]. split; [exact HNew|].
  destruct (New_opens_one_connection_per_entry open_succeeds config_shared_sqlite
              order_shared_sqlite [] [] _ _ Hrange Hopts HNew)
    as (handles & H1 & H2 & H3 & _).
  exists handles. split; [exact H1|]. split; [exact H2|exact H3].
Defined.

(** C3, the claim as stated fails: the configuration maps [k1] to [a.db], the
    registry holds no handle for [a.db], and [resolveDatabaseName] returns
    [a.db] with a nil error, where [resolveConnection] fails. *)
Lemma resolveDatabaseName_ignores_registry :
  canonical_identifier (databaseConfig resolver_unregistered) "k1" = Some "a.db" ∧
  conns resolver_unregistered !! "a.db" = None ∧
  resolveDatabaseName resolver_unregistered "k1" = ("a.db", None) ∧
  resolveConnection resolver_unregistered "k1" = Err (ErrNoConnection "k1") ∧
  ¬ (∀ resolver apiKey databaseName,
       canonical_identifier (databaseConfig resolver) apiKey = Some databaseName →
       conns resolver !! databaseName = None →
       (resolveDatabaseName resolver apiKey).2 = Some (ErrNoConnection apiKey)).
Proof.
  split_and!; try reflexivity.
  intros Hclaim.
  specialize (Hclaim resolver_unregistered "k1" "a.db" eq_refl eq_refl).
  discriminate Hclaim.
Qed.

(** C5, the claim as stated fails: for a configuration with an entry under
    the empty string, a request carrying no identifier in header or query is
    not rejected; the downstream handler runs and answers. *)
Lemma Middleware_serves_request_without_identifier :
  go_range config_empty_key order_empty_key ∧
  New open_succeeds config_empty_key order_empty_key [] []
    = Returns (Ok resolver_empty_key, [handle_sqlite_a]) ∧
  no_identifier canonical_example initial_Globals request_anonymous ∧
  Middleware quote_plain canonical_example resolver_empty_key handler_ok
    initial_Globals request_anonymous fresh_exchange
  = {| resp := {| rw_status := Some 200; rw_body := "ok" |}; stdlog := [] |} ∧
  ¬ rejects quote_plain canonical_example resolver_empty_key initial_Globals
      request_anonymous.
Proof.
  split_and!; try reflexivity.
  - unfold go_range. vm_compute; reflexivity.
  - split; reflexivity.
  - intros [err Hrej].
    specialize (Hrej handler_ok fresh_exchange).
    apply (f_equal stdlog) in Hrej. discriminate Hrej.
Qed.

(** A request for an unknown tenant is answered 500. *)
Lemma Middleware_rejects_failed_resolution_witness :
  resolveConnection resolver_single
    (request_apiKey canonical_example initial_Globals request_unknown)
  = Err (ErrNoConfiguration "nobody") ∧
  Middleware quote_plain canonical_example resolver_single handler_ok
    initial_Globals request_unknown fresh_exchange
  = rejection quote_plain (ErrNoConfiguration "nobody") fresh_exchange ∧
  rw_status
    (resp (Middleware quote_plain canonical_example resolver_single handler_ok
             initial_Globals request_unknown fresh_exchange))
  = Some StatusInternalServerError.
Proof.
  assert (resolveConnection resolver_single
            (request_apiKey canonical_example initial_Globals request_unknown)
          = Err (ErrNoConfiguration "nobody")) as Hres by reflexivity.
  split; [exact Hres|].
  destruct (Middleware_rejects_failed_resolution quote_plain canonical_example
              resolver_single initial_Globals request_unknown) as (_ & _ & Hrej & _).
  destruct (Hrej _ Hres handler_ok fresh_exchange) as (H1 & H2 & _).
  split; [exact H1|]. apply H2. reflexivity.
Defined.

(** The example of the specification: the request with header
    [x-api-key: k1] is bound to the handle for [a.db]. *)
Lemma Middleware_binds_resolved_handle_witness :
  resolveConnection resolver_single
    (request_apiKey canonical_example initial_Globals request_k1)
  = Ok handle_sqlite_a ∧
  ∃ r' databaseName,
    Middleware quote_plain canonical_example resolver_single handler_ok
      initial_Globals request_k1 fresh_exchange
    = handler_ok r' fresh_exchange ∧
    canonical_identifier config_single "k1" = Some databaseName ∧
    DB resolver_single r' = Returns handle_sqlite_a ∧
    DBName resolver_single r' = Returns databaseName.
Proof.
  assert (resolveConnection resolver_single
            (request_apiKey canonical_example initial_Globals request_k1)
          = Ok handle_sqlite_a) as Hres by reflexivity.
  split; [exact Hres|].
  destruct (Middleware_binds_resolved_handle quote_plain canonical_example
              resolver_single handler_ok initial_Globals request_k1 fresh_exchange
              handle_sqlite_a Hres)
    as (r' & name & H1 & H2 & _ & H4 & H5 & _).
  exists r', name. split; [exact H1|]. split; [exact H2|]. split; [exact H4|exact H5].
Defined.

(** Both tenants of [config_shared_sqlite] resolve after [New]. *)
Lemma New_resolves_every_tenant_witness :
  go_range config_shared_sqlite order_shared_sqlite ∧
  Forall (fun o => ∃ cfg, o = GormConfig cfg) [] ∧
  New open_succeeds config_shared_sqlite order_shared_sqlite [] []
    = Returns (Ok resolver_shared_sqlite, [handle_sqlite_a; handle_sqlite_a_second]) ∧
  is_Some (config_shared_sqlite !! "k2") ∧
  ∃ conn, resolveConnection resolver_shared_sqlite "k2" = Ok conn.
Proof.
  assert (go_range config_shared_sqlite order_shared_sqlite) as Hrange
    by (unfold go_range; vm_compute; reflexivity).
  assert (Forall (fun o : Option => ∃ cfg, o = GormConfig cfg) []) as Hopts
    by constructor.
  assert (New open_succeeds config_shared_sqlite order_shared_sqlite [] []
          = Returns (Ok resolver_shared_sqlite, [handle_sqlite_a; handle_sqlite_a_second]))
    as HNew by (vm_compute; reflexivity).
  assert (is_Some (config_shared_sqlite !! "k2")) as Hkey by (vm_compute; eauto).
  split; [exact Hrange|]. split; [exact Hopts|]. split; [exact HNew|].
  split; [exact Hkey|].
  destruct (New_resolves_every_tenant open_succeeds config_shared_sqlite
              order_shared_sqlite [] [] _ _ Hrange Hopts HNew "k2" Hkey)
    as (conn & name & Hres & _).
  exists conn. exact Hres.
Defined.

(** The tenants [k1] and [k2] share the handle of [a.db]. *)
Lemma resolveConnection_shared_identifier_witness :
  canonical_identifier (databaseConfig resolver_shared) "k1" = Some "a.db" ∧
  canonical_identifier (databaseConfig resolver_shared) "k2" = Some "a.db" ∧
  returned_handle (resolveConnection resolver_shared "k1")
    = returned_handle (resolveConnection resolver_shared "k2") ∧
  resolveConnection resolver_shared "k1" = Ok handle_mysql_a.
Proof.
  assert (canonical_identifier (databaseConfig resolver_shared) "k1" = Some "a.db")
    as H1 by reflexivity.
  assert (canonical_identifier (databaseConfig resolver_shared) "k2" = Some "a.db")
    as H2 by reflexivity.
  split; [exact H1|]. split; [exact H2|].
  destruct (resolveConnection_shared_identifier resolver_shared "k1" "k2" "a.db" H1 H2)
    as (Hsame & _ & Hboth).
  split; [exact Hsame|].
  apply (Hboth handle_mysql_a). reflexivity.
Defined.



(** For [k1] both lookups succeed and agree on [a.db]. *)
Lemma resolveDatabaseName_succeeds_with_resolveConnection_witness :
  resolveConnection resolver_single "k1" = Ok handle_sqlite_a ∧
  ∃ databaseName,
    resolveDatabaseName resolver_single "k1" = (databaseName, None) ∧
    conns resolver_single !! databaseName = Some handle_sqlite_a.
Proof.
  assert (resolveConnection resolver_single "k1" = Ok handle_sqlite_a) as Hres
    by reflexivity.
  split; [exact Hres|].
  destruct (resolveDatabaseName_succeeds_with_resolveConnection quote_plain
              canonical_example resolver_single "k1" handle_sqlite_a Hres)
    as (name & H1 & H2 & _).
  exists name. split; [exact H1|exact H2].
Defined.

(** * Further properties *)

(** ** [DatabaseDrivers] *)

Section Descriptors.

Implicit Types (entries order : list (string * gmap string string))
  (drivers : list DBDriver).

Lemma entry_descriptor_complete (dbmap : gmap string string) :
  entry_complete dbmap → entry_descriptor dbmap = Returns (entry_fields dbmap).
Proof.
  intros [[drv Hdrv] [dbn Hdbn]]. unfold entry_descriptor, entry_fields.
  by rewrite Hdrv, Hdbn.
Qed.

Lemma entry_descriptor_incomplete (dbmap : gmap string string) :
  ¬ entry_complete dbmap →
  (dbmap !! "driver" = None ∧ entry_descriptor dbmap = Panics panic_no_driver) ∨
  (is_Some (dbmap !! "driver") ∧ dbmap !! "database" = None ∧
   entry_descriptor dbmap = Panics panic_no_database).
Proof.
  unfold entry_complete, entry_descriptor. intros Hinc.
  destruct (dbmap !! "driver") as [drv|]; [|by left].
  destruct (dbmap !! "database") as [dbn|]; [|right; eauto].
  exfalso. apply Hinc. eauto.
Qed.

(** The loop returns exactly when every entry left is complete, and then
    appends the descriptors of the entries in the order of the visit. *)
Lemma DatabaseDrivers_loop_Returns_iff entries (acc : list DBDriver) drivers :
  DatabaseDrivers_loop entries acc = Returns drivers ↔
  Forall (fun entry => entry_complete entry.2) entries ∧
  drivers = acc ++ ((fun entry => entry_fields entry.2) <$> entries).
Proof.
  induction entries as [|[k dbmap] rest IH] in acc |- *; simpl.
  - rewrite app_nil_r. split.
    + intros [= <-]. by split.
    + by intros [_ ->].
  - destruct (decide (entry_complete dbmap)) as [Hc|Hc].
    + rewrite (entry_descriptor_complete _ Hc), IH, <- app_assoc. simpl.
      split.
      * intros [Hall ->]. split; [by constructor|done].
      * intros [Hall ->]. split; [by inversion Hall|done].
    + split.
      * destruct (entry_descriptor_incomplete _ Hc) as [[_ ->]|(_ & _ & ->)]; done.
      * intros [Hall _]. inversion Hall; subst. done.
Qed.

(** The loop panics at the first incomplete entry, with the message for the
    first key that entry lacks. *)
Lemma DatabaseDrivers_loop_Panics_iff entries (acc : list DBDriver) (p : panic_value) :
  DatabaseDrivers_loop entries acc = Panics p ↔
  ∃ before k dbmap after,
    entries = before ++ (k, dbmap) :: after ∧
    Forall (fun entry => entry_complete entry.2) before ∧
    ((dbmap !! "driver" = None ∧ p = panic_no_driver) ∨
     (is_Some (dbmap !! "driver") ∧ dbmap !! "database" = None ∧ p = panic_no_database)).
Proof.
  induction entries as [|[k dbmap] rest IH] in acc |- *; simpl.
  - split; [done|]. intros (before & ? & ? & ? & Heq & _).
    by destruct before.
  - destruct (decide (entry_complete dbmap)) as [Hc|Hc].
    + rewrite (entry_descriptor_complete _ Hc), IH. split.
      * intros (before & k' & m' & after & -> & Hall & Hp).
        exists ((k, dbmap) :: before), k', m', after. split_and!; [done| |done].
        by constructor.
      * intros (before & k' & m' & after & Heq & Hall & Hp).
        destruct before as [|b before]; simpl in Heq.
        -- injection Heq as -> -> ->. exfalso.
           destruct Hc as [[? Hc1] [? Hc2]].
           destruct Hp as [[Hd _]|(_ & Hn & _)]; congruence.
        -- injection Heq as <- ->. exists before, k', m', after.
           split_and!; [done| |done]. by inversion Hall.
    + split.
      * intros Hp. exists [], k, dbmap, rest. split_and!; [done|by constructor|].
        destruct (entry_descriptor_incomplete _ Hc) as [[Hd Hdesc]|(Hd & Hn & Hdesc)];
          rewrite Hdesc in Hp; injection Hp as <-; [left|right]; done.
      * intros (before & k' & m' & after & Heq & Hall & Hp).
        destruct before as [|b before]; simpl in Heq.
        -- injection Heq as -> -> ->.
           destruct (entry_descriptor_incomplete _ Hc) as [[Hd Hdesc]|(Hd & Hn & Hdesc)];
             rewrite Hdesc; destruct Hp as [[Hd' ->]|(Hd' & Hn' & ->)]; try done.
           ++ rewrite Hd in Hd'. by destruct Hd'.
           ++ rewrite Hd' in Hd. by destruct Hd.
        -- injection Heq as <- ->. inversion Hall; subst. done.
Qed.

(** X1. [DatabaseDrivers] returns exactly when every entry visited has both
    the [driver] and the [database] key, and the slice it returns then holds
    one descriptor per entry, in the order of the visit, carrying the two
    strings of the entry unchanged: the driver kind is not validated here and
    further keys of an entry are ignored. *)
Theorem DatabaseDrivers_returns_iff order drivers :
  DatabaseDrivers order = Returns drivers ↔
  Forall2
    (fun entry d =>
       entry.2 !! "driver" = Some (dbd_Driver d) ∧
       entry.2 !! "database" = Some (dbd_Database d))
    order drivers.
Proof.
  unfold DatabaseDrivers. split.
  - intros (found & -> & Hall)%DatabaseDrivers_loop_Returns. simpl.
    eapply Forall2_impl; [exact Hall|]. intros entry d Hd.
    by apply entry_descriptor_Returns.
  - intros Hall. apply DatabaseDrivers_loop_Returns_iff. simpl.
    induction Hall as [|[k m] [drv dbn] order' ds [Hdrv Hdbn] _ [IH1 IH2]]; [done|].
    simpl in *. split.
    + constructor; [|done]. unfold entry_complete. simpl. rewrite Hdrv, Hdbn. eauto.
    + unfold entry_fields at 1. simpl. rewrite Hdrv, Hdbn. simpl. by rewrite IH2.
Qed.

(** X2. [DatabaseDrivers] panics exactly when some entry lacks a required
    key.  The panic value is decided by the first such entry in the order of
    the visit: the driver message when it lacks [driver] (also when it lacks
    both keys), the database message when it has [driver] and lacks
    [database]. *)
Theorem DatabaseDrivers_panics_iff order (p : panic_value) :
  DatabaseDrivers order = Panics p ↔
  ∃ before k dbmap after,
    order = before ++ (k, dbmap) :: after ∧
    Forall (fun entry => is_Some (entry.2 !! "driver") ∧ is_Some (entry.2 !! "database"))
      before ∧
    ((dbmap !! "driver" = None ∧
      p = PanicString "driver not specified in configuration file") ∨
     (is_Some (dbmap !! "driver") ∧ dbmap !! "database" = None ∧
      p = PanicString "database key not specified in configuration file")).
Proof. apply DatabaseDrivers_loop_Panics_iff. Qed.

(** Whether the loop returns does not depend on the accumulator. *)
Lemma DatabaseDrivers_Returns_or_Panics order :
  (Forall (fun entry => entry_complete entry.2) order ∧
   DatabaseDrivers order = Returns ((fun entry => entry_fields entry.2) <$> order)) ∨
  (¬ Forall (fun entry => entry_complete entry.2) order ∧
   ∃ p, DatabaseDrivers order = Panics p).
Proof.
  destruct (decide (Forall (fun entry : string * gmap string string =>
                              entry_complete entry.2) order)) as [Hall|Hnot].
  - left. split; [done|]. by apply DatabaseDrivers_loop_Returns_iff.
  - right. split; [done|].
    destruct (DatabaseDrivers order) as [ds|p] eqn:Hrun; [|eauto].
    apply DatabaseDrivers_loop_Returns_iff in Hrun as [Hall _]. done.
Qed.

(** X3. The order in which the map is visited does not decide whether
    [DatabaseDrivers] returns or panics, and two visits that return give the
    same descriptors up to their order. *)
Theorem DatabaseDrivers_order_irrelevant order1 order2 :
  order1 ≡ₚ order2 →
  ((∃ p, DatabaseDrivers order1 = Panics p) ↔ (∃ p, DatabaseDrivers order2 = Panics p)) ∧
  (∀ drivers1,
     DatabaseDrivers order1 = Returns drivers1 →
     ∃ drivers2, DatabaseDrivers order2 = Returns drivers2 ∧ drivers1 ≡ₚ drivers2).
Proof.
  intros Hperm.
  assert (Forall (fun entry : string * gmap string string => entry_complete entry.2) order1
          ↔ Forall (fun entry : string * gmap string string => entry_complete entry.2) order2)
    as Hall by (by rewrite Hperm).
  split.
  - destruct (DatabaseDrivers_Returns_or_Panics order1) as [[H1 E1]|[H1 E1]];
      destruct (DatabaseDrivers_Returns_or_Panics order2) as [[H2 E2]|[H2 E2]];
      try tauto.
    rewrite E1, E2. split; intros [p [=]].
  - intros ds1 Hrun.
    apply DatabaseDrivers_loop_Returns_iff in Hrun as [H1 ->]. simpl.
    exists ((fun entry : string * gmap string string => entry_fields entry.2) <$> order2).
    split.
    + apply DatabaseDrivers_loop_Returns_iff. split; [by apply Hall|done].
    + by rewrite Hperm.
Qed.

End Descriptors.

(** ** [New]: failures, handles opened, tenants and handles *)

Section NewProperties.

Variable gorm_Open_error : list gorm_DB → Dialector → gorm_Config → option string.

Implicit Types (c : DatabaseConfig) (order : list (string * gmap string string))
  (options : list Option) (opened : list gorm_DB).

Lemma dialect_for_Some (d : DBDriver) (dialect : Dialector) :
  dialect_for d = Some dialect →
  supported_driver (dbd_Driver d) ∧ dialector_dsn dialect = dbd_Database d.
Proof.
  unfold dialect_for, supported_driver.
  repeat case_decide; intros [= <-]; simpl; auto.
Qed.

Lemma dialect_for_None (d : DBDriver) :
  dialect_for d = None ↔ ¬ supported_driver (dbd_Driver d).
Proof.
  unfold dialect_for, supported_driver.
  repeat case_decide; split; try done; tauto.
Qed.

(** What the loop of [New] has done when it ends, with or without error: it
    opened one handle for each descriptor before the one it failed on, and
    the error is that of the descriptor it stopped at. *)
Lemma New_loop_outcome (drivers : list DBDriver) (resolver : DBResolver) opened
    (res : result DBResolver) (opened' : list gorm_DB) :
  New_loop gorm_Open_error drivers resolver opened = (res, opened') →
  ∃ handles,
    opened' = opened ++ handles ∧
    match res with
    | Ok _ => length handles = length drivers
    | Err e =>
        ∃ d, drivers !! length handles = Some d ∧
             ((dialect_for d = None ∧ e = ErrUnsupportedDriver (dbd_Driver d)) ∨
              (∃ dialect msg,
                 dialect_for d = Some dialect ∧
                 gorm_Open_error (opened ++ handles) dialect (config resolver) = Some msg ∧
                 e = ErrGorm msg))
    end.
Proof.
  induction drivers as [|d ds IH] in resolver, opened |- *; simpl.
  - intros [= <- <-]. exists []. by rewrite app_nil_r.
  - destruct (dialect_for d) as [dialect|] eqn:Hdialect.
    + unfold createDB, gorm_Open.
      destruct (gorm_Open_error opened dialect (config resolver)) as [msg|] eqn:Hopen.
      * intros [= <- <-]. exists []. rewrite app_nil_r. split; [done|].
        exists d. split; [done|]. right. by exists dialect, msg.
      * intros (hs & -> & Hres)%IH. simpl in Hres.
        exists (mkDB (length opened) dialect (config resolver) :: hs).
        rewrite <- app_assoc. split; [done|].
        destruct res as [r'|e]; simpl; [by rewrite Hres|].
        by rewrite <- app_assoc in Hres.
    + intros [= <- <-]. exists []. rewrite app_nil_r. split; [done|].
      exists d. split; [done|]. by left.
Qed.

Lemma New_Returns_inv c order options opened (res : result DBResolver)
    (opened' : list gorm_DB) :
  New gorm_Open_error c order options opened = Returns (res, opened') →
  ∃ drivers,
    DatabaseDrivers order = Returns drivers ∧
    Forall2 (fun entry d => entry_descriptor entry.2 = Returns d) order drivers ∧
    New_loop gorm_Open_error drivers
      (foldl (fun resolver option => option resolver)
         {| conns := ∅; databaseConfig := c; config := Config_zero |} options)
      opened = (res, opened').
Proof.
  unfold New. destruct (DatabaseDrivers order) as [drivers|p] eqn:Hd; [|done].
  intros [= Hloop]. exists drivers. split_and!; [done| |done].
  unfold DatabaseDrivers in Hd.
  by apply DatabaseDrivers_loop_Returns in Hd as (found & -> & Hall).
Qed.

Lemma go_range_lookup c order (k : string) (m : gmap string string) :
  go_range c order → (k, m) ∈ order ↔ c !! k = Some m.
Proof. intros Hrange. rewrite Hrange. apply elem_of_map_to_list. Qed.

(** X4. With options built by [GormConfig] from a configuration that is not
    nil, and a [gorm.Open] that returns, [New] panics exactly when some tenant
    entry of the configuration lacks the [driver] or the [database] key,
    whatever the visiting order, and the panic value is one of the two
    messages of [DatabaseDrivers].  (A nil configuration, on which [gorm.Open]
    itself panics, is outside the model: every [gorm_Config] is a pointer
    that is not nil.) *)
Theorem New_panics_iff_incomplete_entry c order options opened :
  go_range c order →
  Forall (fun o => ∃ cfg, o = GormConfig cfg) options →
  ((∃ p, New gorm_Open_error c order options opened = Panics p) ↔
   ∃ k m, c !! k = Some m ∧ (m !! "driver" = None ∨ m !! "database" = None)) ∧
  (∀ p, New gorm_Open_error c order options opened = Panics p →
        p = PanicString "driver not specified in configuration file" ∨
        p = PanicString "database key not specified in configuration file").
Proof.
  intros Hrange _.
  assert (∀ p, New gorm_Open_error c order options opened = Panics p ↔
               DatabaseDrivers order = Panics p) as Hsame.
  { intros p. unfold New. destruct (DatabaseDrivers order); naive_solver. }
  split.
  - split.
    + intros [p Hp%Hsame].
      apply DatabaseDrivers_loop_Panics_iff in Hp
        as (before & k & m & after & -> & _ & Hlack).
      exists k, m. split.
      * apply (go_range_lookup _ _ _ _ Hrange), elem_of_app. right. by left.
      * destruct Hlack as [[? _]|(_ & ? & _)]; auto.
    + intros (k & m & Hin%(go_range_lookup _ _ _ _ Hrange) & Hlack).
      destruct (DatabaseDrivers_Returns_or_Panics order) as [[Hall _]|[_ [p Hp]]].
      * exfalso. rewrite Forall_forall in Hall.
        destruct (Hall _ Hin) as [[? Hd] [? Hn]]. simpl in *.
        destruct Hlack; congruence.
      * exists p. by apply Hsame.
  - intros p Hp%Hsame.
    apply DatabaseDrivers_loop_Panics_iff in Hp as (? & ? & ? & ? & _ & _ & Hlack).
    destruct Hlack as [[_ ->]|(_ & _ & ->)]; auto.
Qed.

(** X5. A tenant entry with a driver kind other than [sqlite], [mysql] or
    [postgres] makes [New] return no resolver; and when [New] fails with the
    unsupported-driver error for a driver kind, that kind is not supported and
    is the driver of some tenant entry. *)
Theorem New_unsupported_driver_fails c order options opened :
  go_range c order →
  (∀ k m driver,
     c !! k = Some m → m !! "driver" = Some driver → ¬ supported_driver driver →
     ∀ resolver opened',
       New gorm_Open_error c order options opened ≠ Returns (Ok resolver, opened')) ∧
  (∀ driver opened',
     New gorm_Open_error c order options opened
       = Returns (Err (ErrUnsupportedDriver driver), opened') →
     ¬ supported_driver driver ∧
     ∃ k m, c !! k = Some m ∧ m !! "driver" = Some driver).
Proof.
  intros Hrange. split.
  - intros k m driver Hk Hdrv Hunsupported resolver opened' HNew.
    apply New_Returns_inv in HNew as (drivers & _ & Hdesc & Hloop).
    apply New_loop_Ok in Hloop as (handles & _ & Hopen & _).
    apply (go_range_lookup _ _ _ _ Hrange), list_elem_of_lookup_1 in Hk as [i Hi].
    destruct (Forall2_lookup_l _ _ _ _ _ Hdesc Hi) as (d & Hd & Hret).
    apply entry_descriptor_Returns in Hret as [Hdrv' _]. simpl in Hdrv'.
    destruct (Forall2_lookup_l _ _ _ _ _ Hopen Hd) as (h & _ & Hdialect & _).
    apply dialect_for_Some in Hdialect as [Hsup _].
    apply Hunsupported. congruence.
  - intros driver opened' HNew.
    apply New_Returns_inv in HNew as (drivers & _ & Hdesc & Hloop).
    apply New_loop_outcome in Hloop as (handles & _ & d & Hd & Hwhy).
    destruct Hwhy as [[Hnone [= ->]]|(? & ? & _ & _ & [=])].
    split; [by apply dialect_for_None|].
    destruct (Forall2_lookup_r _ _ _ _ _ Hdesc Hd) as ([k m] & Hi & Hret).
    apply entry_descriptor_Returns in Hret as [Hdrv _]. simpl in Hdrv.
    exists k, m. split; [|done].
    apply (go_range_lookup _ _ _ _ Hrange). by eapply list_elem_of_lookup_2.
Qed.

(** X6. Whenever [New] returns, the handles open afterwards are those open
    before followed by the ones [New] opened, which stay open also when it
    fails.  It opens as many handles as the configuration has tenant entries
    when it succeeds and fewer when it fails, and a gorm error it returns is
    the one [gorm.Open] gave for the connection it could not open. *)
Theorem New_keeps_opened_handles c order options opened (res : result DBResolver)
    (opened' : list gorm_DB) :
  go_range c order →
  New gorm_Open_error c order options opened = Returns (res, opened') →
  ∃ handles,
    opened' = opened ++ handles ∧
    (length handles ≤ size c)%nat ∧
    (∀ resolver, res = Ok resolver → length handles = size c) ∧
    (∀ e, res = Err e → (length handles < size c)%nat) ∧
    (∀ msg, res = Err (ErrGorm msg) →
       ∃ dialect cfg, gorm_Open_error (opened ++ handles) dialect cfg = Some msg).
Proof.
  intros Hrange HNew.
  apply New_Returns_inv in HNew as (drivers & _ & Hdesc & Hloop).
  apply New_loop_outcome in Hloop as (handles & -> & Hres).
  assert (length drivers = size c) as Hsize.
  { rewrite <- (Forall2_length _ _ _ Hdesc), <- length_map_to_list.
    by apply Permutation_length. }
  exists handles. split; [done|]. destruct res as [r|e].
  - split_and!; try done; lia.
  - destruct Hres as (d & Hd & Hwhy). apply lookup_lt_Some in Hd.
    split; [lia|]. split; [done|]. split; [intros; lia|].
    intros msg [= Heq]. subst e.
    destruct Hwhy as [[_ [=]]|(dialect & msg' & _ & Hopen & [= <-])]. eauto.
Qed.

(** The handle a successful [New] stores under an identifier was opened for
    an entry naming that identifier, with the driver kind of that entry. *)
Lemma New_registry_entry c order options opened (opened' : list gorm_DB)
    (resolver : DBResolver) (d : string) (h : gorm_DB) :
  Forall (fun o => ∃ cfg, o = GormConfig cfg) options →
  New gorm_Open_error c order options opened = Returns (Ok resolver, opened') →
  conns resolver !! d = Some h →
  ∃ i k m driver,
    order !! i = Some (k, m) ∧
    m !! "driver" = Some driver ∧ m !! "database" = Some d ∧
    dialect_for (mkDBDriver driver d) = Some (db_dialector h) ∧
    db_addr h = length opened + i ∧
    h ∈ opened'.
Proof.
  intros Hopts HNew Hh.
  destruct (New_Ok _ _ _ _ _ _ _ Hopts HNew)
    as (ids & handles & -> & Hlen1 & Hlen2 & Hentry & _ & Hconns).
  rewrite Hconns in Hh. apply store_all_lookup in Hh
    as [(i & [Hid Hhi]%lookup_zip_Some & _) | [_ Hempty]];
    [|by rewrite lookup_empty in Hempty].
  assert (i < length order) as [[k m] Hkm]%lookup_lt_is_Some
    by (apply lookup_lt_Some in Hhi; lia).
  destruct (Hentry i k m Hkm) as (drv & dbn & h' & Hdrv & Hdbn & Hid' & Hh' & Hdial & Haddr).
  assert (dbn = d) as -> by congruence. assert (h' = h) as -> by congruence.
  exists i, k, m, drv. split_and!; try done.
  apply elem_of_app. right. by eapply list_elem_of_lookup_2.
Qed.

(** What a successful [New] leaves open: the handles open before, which are
    well addressed still, followed by the handles it opened, none of which
    was open before. *)
Lemma New_opens_fresh_handles c order options opened (opened' : list gorm_DB)
    (resolver : DBResolver) :
  well_addressed opened →
  Forall (fun o => ∃ cfg, o = GormConfig cfg) options →
  New gorm_Open_error c order options opened = Returns (Ok resolver, opened') →
  ∃ handles,
    opened' = opened ++ handles ∧
    well_addressed opened' ∧
    (∀ h, h ∈ handles → (length opened ≤ db_addr h)%nat) ∧
    (∀ h0, h0 ∈ opened → (db_addr h0 < length opened)%nat).
Proof.
  intros Hwell Hopts HNew.
  destruct (New_Ok _ _ _ _ _ _ _ Hopts HNew)
    as (ids & handles & -> & Hlen1 & Hlen2 & Hentry & _ & _).
  assert (∀ i h, handles !! i = Some h → db_addr h = length opened + i) as Haddr.
  { intros i h Hi.
    assert (i < length order) as [[k m] Hkm]%lookup_lt_is_Some
      by (apply lookup_lt_Some in Hi; lia).
    destruct (Hentry i k m Hkm) as (_ & _ & h' & _ & _ & _ & Hh' & _ & Ha).
    congruence. }
  exists handles. split_and!; [done| | |].
  - intros j h [Hj|[Hge Hj]]%lookup_app_Some; [by apply Hwell|].
    rewrite (Haddr _ _ Hj). lia.
  - intros h [i Hi]%list_elem_of_lookup_1. rewrite (Haddr _ _ Hi). lia.
  - intros h0 [j Hj]%list_elem_of_lookup_1. rewrite (Hwell _ _ Hj).
    by apply lookup_lt_Some in Hj.
Qed.

(** X7. After a successful [New] that started from well-addressed handles,
    the handle [resolveConnection] returns for a tenant is connected to the
    tenant's canonical identifier: its dialector was built from that
    identifier with a supported driver kind that some tenant entry naming the
    identifier declares.  The handle is one of those [New] opened and was not
    open before: it is none of the handles open before the call and shares
    its address with none of them. *)
Theorem New_handle_matches_tenant c order options opened (opened' : list gorm_DB)
    (resolver : DBResolver) (T : string) (h : gorm_DB) :
  well_addressed opened →
  go_range c order →
  Forall (fun o => ∃ cfg, o = GormConfig cfg) options →
  New gorm_Open_error c order options opened = Returns (Ok resolver, opened') →
  resolveConnection resolver T = Ok h →
  ∃ d driver handles,
    canonical_identifier c T = Some d ∧
    dialector_dsn (db_dialector h) = d ∧
    supported_driver driver ∧
    dialect_for (mkDBDriver driver d) = Some (db_dialector h) ∧
    (∃ k m, c !! k = Some m ∧ m !! "database" = Some d ∧ m !! "driver" = Some driver) ∧
    opened' = opened ++ handles ∧
    h ∈ handles ∧
    (h ∉ opened) ∧
    (∀ h0, h0 ∈ opened → db_addr h0 ≠ db_addr h) ∧
    well_addressed opened'.
Proof.
  intros Hwell Hrange Hopts HNew Hres.
  destruct (New_registry_keys _ _ _ _ _ _ _ Hrange Hopts HNew) as [Hcfg _].
  apply resolveConnection_Ok in Hres as (d & Hd & Hh). rewrite Hcfg in Hd.
  destruct (New_registry_entry _ _ _ _ _ _ _ _ Hopts HNew Hh)
    as (i & k & m & drv & Hi & Hdrv & Hdbn & Hdial & Haddr & Hin).
  destruct (dialect_for_Some _ _ Hdial) as [Hsup Hdsn]. simpl in *.
  destruct (New_opens_fresh_handles _ _ _ _ _ _ Hwell Hopts HNew)
    as (handles & -> & Hwell' & Hnew & Hold).
  assert (∀ h0, h0 ∈ opened → db_addr h0 ≠ db_addr h) as Hother.
  { intros h0 Hh0%Hold. lia. }
  assert (h ∉ opened) as Hfresh.
  { intros Hold'. by apply (Hother h Hold'). }
  exists d, drv, handles. split_and!; try done.
  - exists k, m. split_and!; try done.
    apply (go_range_lookup _ _ _ _ Hrange). by eapply list_elem_of_lookup_2.
  - apply elem_of_app in Hin as [Hin|Hin]; [by destruct Hfresh|done].
Qed.

(** X8. After a successful [New], two tenants get the same handle instance
    from [resolveConnection] exactly when their entries name the same
    canonical identifier; tenants on different identifiers get handles at
    different addresses. *)
Theorem New_isolates_tenants c order options opened (opened' : list gorm_DB)
    (resolver : DBResolver) (T1 T2 : string) (h1 h2 : gorm_DB) :
  Forall (fun o => ∃ cfg, o = GormConfig cfg) options →
  New gorm_Open_error c order options opened = Returns (Ok resolver, opened') →
  resolveConnection resolver T1 = Ok h1 →
  resolveConnection resolver T2 = Ok h2 →
  (h1 = h2 ↔ canonical_identifier c T1 = canonical_identifier c T2) ∧
  (db_addr h1 = db_addr h2 ↔ canonical_identifier c T1 = canonical_identifier c T2).
Proof.
  intros Hopts HNew Hres1 Hres2.
  destruct (New_Ok _ _ _ _ _ _ _ Hopts HNew) as (_ & _ & _ & _ & _ & _ & Hcfg & _).
  apply resolveConnection_Ok in Hres1 as (d1 & Hd1 & Hh1).
  apply resolveConnection_Ok in Hres2 as (d2 & Hd2 & Hh2).
  rewrite Hcfg in Hd1, Hd2. rewrite Hd1, Hd2.
  destruct (New_registry_entry _ _ _ _ _ _ _ _ Hopts HNew Hh1)
    as (i1 & k1 & m1 & drv1 & Hi1 & _ & Hdbn1 & _ & Haddr1 & _).
  destruct (New_registry_entry _ _ _ _ _ _ _ _ Hopts HNew Hh2)
    as (i2 & k2 & m2 & drv2 & Hi2 & _ & Hdbn2 & _ & Haddr2 & _).
  assert (db_addr h1 = db_addr h2 → Some d1 = Some d2) as Haddr.
  { intros Heq. assert (i1 = i2) as -> by lia. congruence. }
  assert (Some d1 = Some d2 → h1 = h2) as Hsame by (intros [= ->]; congruence).
  split; split; auto.
  - intros ->. by apply Haddr.
  - intros Heq. by rewrite (Hsame Heq).
Qed.

Lemma foldl_GormConfig (cfgs : list gorm_Config) (resolver : DBResolver) :
  config (foldl (fun resolver option => option resolver) resolver (GormConfig <$> cfgs))
  = default (config resolver) (last cfgs).
Proof.
  induction cfgs as [|cfg rest IH] in resolver |- *; simpl; [done|].
  rewrite IH, last_cons. by destruct (last rest).
Qed.

(** X9. The [gorm.Config] of the last [GormConfig] option is the one in
    force: a successful [New] stores it in the resolver and has opened every
    handle of the registry with it; without such an option it is the zero
    configuration. *)
Theorem New_uses_last_GormConfig c order (cfgs : list gorm_Config) opened
    (opened' : list gorm_DB) (resolver : DBResolver) :
  New gorm_Open_error c order (GormConfig <$> cfgs) opened
    = Returns (Ok resolver, opened') →
  config resolver = default Config_zero (last cfgs) ∧
  (∀ d h, conns resolver !! d = Some h → db_config h = default Config_zero (last cfgs)).
Proof.
  intros HNew.
  apply New_Returns_inv in HNew as (drivers & _ & _ & Hloop).
  apply New_loop_Ok in Hloop as (handles & _ & Hopen & _ & _ & Hconfig & Hconns).
  rewrite foldl_GormConfig in Hconfig, Hopen. simpl in *.
  assert (Forall (fun o : Option => ∃ cfg, o = GormConfig cfg) (GormConfig <$> cfgs))
    as Hopts.
  { apply Forall_fmap, Forall_forall. intros cfg _. by exists cfg. }
  destruct (options_keep_maps _
              {| conns := ∅; databaseConfig := c; config := Config_zero |} Hopts)
    as [Hempty _].
  rewrite Hempty in Hconns. simpl in Hconns.
  split; [done|]. intros d h Hh. rewrite Hconns in Hh.
  apply store_all_lookup in Hh
    as [(i & [_ Hhi]%lookup_zip_Some & _) | [_ Hnone]];
    [|by rewrite lookup_empty in Hnone].
  destruct (Forall2_lookup_r _ _ _ _ _ Hopen Hhi) as (d' & _ & _ & Hcfg). done.
Qed.

End NewProperties.

(** ** The two lookups together *)

(** X10. Whenever [resolveDatabaseName] fails, it returns the empty string,
    the error is the unknown-tenant or the missing-database-key error for the
    identifier, and [resolveConnection] fails with the very same error. *)
Theorem resolveDatabaseName_error_shared (resolver : DBResolver) (apiKey : string)
    (err : error) :
  (resolveDatabaseName resolver apiKey).2 = Some err →
  (resolveDatabaseName resolver apiKey).1 = "" ∧
  (err = ErrNoConfiguration apiKey ∨ err = ErrNoDatabase apiKey) ∧
  resolveConnection resolver apiKey = Err err.
Proof.
  unfold resolveDatabaseName, resolveConnection.
  destruct (databaseConfig resolver !! apiKey) as [databaseMap|]; simpl.
  - destruct (databaseMap !! "database") as [name|]; simpl; [done|].
    intros [= <-]. auto.
  - intros [= <-]. auto.
Qed.

(** ** The middleware and the accessors *)

Section BinderProperties.

Variable strconv_Quote : string → string.
Variable CanonicalMIMEHeaderKey : string → string.

Implicit Types (resolver : DBResolver) (g : Globals) (r : Request) (x : Exchange)
  (next : Handler) (ctx : Context).

Local Abbreviation apiKey_of := (request_apiKey CanonicalMIMEHeaderKey).
Local Abbreviation serve := (Middleware strconv_Quote CanonicalMIMEHeaderKey).

(** X11. For every request the middleware does one of two things, whatever
    the downstream handler is: it rejects the request with the error of
    [resolveConnection], or it hands the untouched exchange to the handler
    with a request on which [DB] and [DBName] return, without panic, a handle
    of the registry and the key it is stored under. *)
Theorem Middleware_rejects_or_binds resolver g r :
  (∃ err,
     resolveConnection resolver (apiKey_of g r) = Err err ∧
     ∀ next x, serve resolver next g r x = rejection strconv_Quote err x) ∨
  (∃ r' conn databaseName,
     resolveConnection resolver (apiKey_of g r) = Ok conn ∧
     (∀ next x, serve resolver next g r x = next r' x) ∧
     DB resolver r' = Returns conn ∧
     DBName resolver r' = Returns databaseName ∧
     conns resolver !! databaseName = Some conn).
Proof.
  destruct (resolveConnection resolver (apiKey_of g r)) as [conn|err] eqn:Hres.
  - right.
    pose proof Hres as (name & Hname & Hconn)%resolveConnection_Ok.
    eexists _, conn, name. split; [done|]. split.
    + intros next x. rewrite (Middleware_Ok _ _ _ _ _ _ _ _ Hres).
      by rewrite (resolveDatabaseName_Ok _ _ _ Hname).
    + by split_and!.
  - left. exists err. split; [done|]. intros next x. by apply Middleware_Err.
Qed.

(** X12. Two middlewares in a row: when the identifier of the request
    resolves in both resolvers, the downstream handler runs on a request on
    which [DB] and [DBName] give the handle and the name of the inner
    middleware, the binding of the outer one being shadowed. *)
Theorem Middleware_nested_inner_wins (outer inner : DBResolver) next g r x
    (conn1 conn2 : gorm_DB) :
  resolveConnection outer (apiKey_of g r) = Ok conn1 →
  resolveConnection inner (apiKey_of g r) = Ok conn2 →
  ∃ r' databaseName,
    serve outer (serve inner next g) g r x = next r' x ∧
    canonical_identifier (databaseConfig inner) (apiKey_of g r) = Some databaseName ∧
    DB outer r' = Returns conn2 ∧
    DB inner r' = Returns conn2 ∧
    DBName inner r' = Returns databaseName.
Proof.
  intros Hout Hin.
  pose proof Hin as (name & Hname & Hconn)%resolveConnection_Ok.
  rewrite (Middleware_Ok _ _ _ _ _ _ _ _ Hout).
  set (r1 := WithContext r _).
  assert (apiKey_of g r1 = apiKey_of g r) as Hkey by done.
  rewrite <- Hkey in Hin, Hname.
  rewrite (Middleware_Ok _ _ _ _ _ _ _ _ Hin), (resolveDatabaseName_Ok _ _ _ Hname).
  eexists _, name. rewrite <- Hkey. by split_and!.
Qed.

(** X13. The query parameter is a fallback for a missing header only, not
    for a failed resolution: when the header gives a non-empty identifier that
    does not resolve, the request is rejected whatever the query holds. *)
Theorem Middleware_header_failure_no_fallback resolver g r (err : error) :
  Header_Get CanonicalMIMEHeaderKey (Header r) (apiKeyHeader g) ≠ "" →
  resolveConnection resolver
    (Header_Get CanonicalMIMEHeaderKey (Header r) (apiKeyHeader g)) = Err err →
  ∀ (query : gmap string (list string)) next x,
    serve resolver next g
      {| Header := Header r; URL_Query := query; req_Context := req_Context r |} x
    = rejection strconv_Quote err x.
Proof.
  intros Hne Hres query next x. apply Middleware_Err.
  unfold request_apiKey. simpl. by rewrite decide_False.
Qed.

(** X20. After [SetHeaderName name] the identifier of a request depends on
    nothing but the header [name] and the query parameter [name]: two
    requests that agree on these two have the same identifier, whatever else
    they carry and whatever the name was before. *)
Theorem SetHeaderName_selects_source (name : string) (g g' : Globals) (r r' : Request) :
  Header r !! CanonicalMIMEHeaderKey name = Header r' !! CanonicalMIMEHeaderKey name →
  URL_Query r !! name = URL_Query r' !! name →
  apiKey_of (SetHeaderName name g) r = apiKey_of (SetHeaderName name g') r' ∧
  (apiKey_of (SetHeaderName name g) r
   = first_value (Header r !! CanonicalMIMEHeaderKey name) ∨
   first_value (Header r !! CanonicalMIMEHeaderKey name) = "" ∧
   apiKey_of (SetHeaderName name g) r = first_value (URL_Query r !! name)).
Proof.
  intros Hh Hq. unfold request_apiKey, Header_Get, Values_Get. simpl.
  rewrite Hh, Hq. split; [done|]. case_decide; auto.
Qed.

End BinderProperties.

(** Bindings under other keys do not change what a key is bound to. *)
Lemma context_Value_other_keys (extra ctx : Context) (key : context_key) :
  Forall (fun binding => binding.1 ≠ key) extra →
  context_Value (extra ++ ctx) key = context_Value ctx key.
Proof.
  induction 1 as [|[k v] extra Hk _ IH]; simpl; [done|].
  by rewrite decide_False.
Qed.

(** X14. Values attached to a request context under other keys, among them
    every key of another type, leave the results of [DB] and [DBName] as they
    are. *)
Theorem accessors_ignore_other_keys (resolver : DBResolver) (r : Request)
    (extra : Context) :
  Forall
    (fun binding =>
       binding.1 ≠ ConnectionContextKey ∧ binding.1 ≠ DatabaseContextKey) extra →
  DB resolver (WithContext r (extra ++ req_Context r)) = DB resolver r ∧
  DBName resolver (WithContext r (extra ++ req_Context r)) = DBName resolver r.
Proof.
  intros Hother. unfold DB, DBName. simpl.
  rewrite !context_Value_other_keys; [done| |].
  - eapply Forall_impl; [exact Hother|]. by intros ? [_ ?].
  - eapply Forall_impl; [exact Hother|]. by intros ? [? _].
Qed.

(** X15. On a request whose context holds no value under the connection key,
    such as one that did not pass the middleware, [DB] panics; likewise
    [DBName] for the database key. *)
Theorem accessors_panic_when_unbound (resolver : DBResolver) (r : Request) :
  (Forall (fun binding => binding.1 ≠ ConnectionContextKey) (req_Context r) →
   DB resolver r = Panics PanicTypeAssertion) ∧
  (Forall (fun binding => binding.1 ≠ DatabaseContextKey) (req_Context r) →
   DBName resolver r = Panics PanicTypeAssertion).
Proof.
  unfold DB, DBName. split; intros Hnone.
  - pose proof (context_Value_other_keys _ [] _ Hnone) as Hv.
    rewrite app_nil_r in Hv. by rewrite Hv.
  - pose proof (context_Value_other_keys _ [] _ Hnone) as Hv.
    rewrite app_nil_r in Hv. by rewrite Hv.
Qed.

(** ** The loop of [AutoMigrate] *)

Section MigrationProperties.

Variable conn_AutoMigrate : list migration_event → gorm_DB → list any → option error.

Implicit Types (order : list (string * gorm_DB)) (models : list any)
  (trace : list migration_event) (errorCallback : error → bool).

Lemma AutoMigrate_loop_no_failure order models errorCallback trace :
  (∀ trace' conn, conn_AutoMigrate trace' conn models = None) →
  AutoMigrate_loop conn_AutoMigrate order models errorCallback trace
  = (Returns tt, trace ++ (Migrated <$> order.*2)).
Proof.
  intros Hok. induction order as [|[k conn] rest IH] in trace |- *; simpl.
  - by rewrite app_nil_r.
  - by rewrite Hok, IH, <- app_assoc.
Qed.

(** X16. When no migration fails, [AutoMigrate] returns after one migration
    per registry entry, in the order of the visit, and the error callback is
    never called, whatever it would answer. *)
Theorem AutoMigrate_without_failure order models errorCallback :
  (∀ trace conn, conn_AutoMigrate trace conn models = None) →
  AutoMigrate conn_AutoMigrate order models errorCallback
  = (Returns tt, Migrated <$> order.*2).
Proof. intros Hok. unfold AutoMigrate. by rewrite AutoMigrate_loop_no_failure. Qed.

Lemma attempted_app trace1 trace2 :
  attempted (trace1 ++ trace2) = attempted trace1 ++ attempted trace2.
Proof. unfold attempted. apply omap_app. Qed.

Lemma AutoMigrate_loop_visits order models errorCallback trace
    (res : outcome unit) (trace' : list migration_event) :
  AutoMigrate_loop conn_AutoMigrate order models errorCallback trace = (res, trace') →
  ∃ visited rest,
    order.*2 = visited ++ rest ∧
    attempted trace' = attempted trace ++ visited ∧
    (res = Returns tt → rest = []) ∧
    (∀ p, res = Panics p →
       ∃ e conn, p = PanicError e ∧ last visited = Some conn ∧
                 last trace' = Some (PolicyAsked e)).
Proof.
  induction order as [|[k conn] rest IH] in trace |- *; simpl.
  - intros [= <- <-]. exists [], []. split_and!; try done.
    by rewrite app_nil_r.
  - destruct (conn_AutoMigrate trace conn models) as [e|] eqn:Hmig.
    + destruct (errorCallback e) eqn:Hcb.
      * intros [= <- <-]. exists [conn], rest.*2.
        split_and!; [done| |done|].
        { rewrite !attempted_app. simpl. by rewrite app_nil_r. }
        intros p [= <-]. exists e, conn. split_and!; try done.
        by rewrite last_snoc.
      * intros (visited & rest' & Hsplit & Hseen & Hret & Hpanic)%IH.
        exists (conn :: visited), rest'.
        split_and!; [simpl; f_equal; exact Hsplit| |done|].
        { rewrite Hseen, !attempted_app. simpl. by rewrite app_nil_r, <- app_assoc. }
        intros p Hp. destruct (Hpanic p Hp) as (e' & c' & -> & Hlast & Hev).
        exists e', c'. split_and!; try done.
        rewrite last_cons, Hlast. done.
    + intros (visited & rest' & Hsplit & Hseen & Hret & Hpanic)%IH.
      exists (conn :: visited), rest'.
      split_and!; [simpl; f_equal; exact Hsplit| |done|].
      { rewrite Hseen, !attempted_app. simpl. by rewrite <- app_assoc. }
      intros p Hp. destruct (Hpanic p Hp) as (e' & c' & -> & Hlast & Hev).
      exists e', c'. split_and!; try done.
      rewrite last_cons, Hlast. done.
Qed.

(** X17. Whatever the migrations and the callback answer, [AutoMigrate]
    attempts the backends in the order of the visit, each at most once and
    none skipped: the handles attempted are a prefix of the registry entries
    visited, all of them when it returns.  When it panics, the panic value is
    an error, the one the callback was asked about last. *)
Theorem AutoMigrate_attempts_prefix order models errorCallback :
  ∃ rest,
    order.*2
      = attempted (AutoMigrate conn_AutoMigrate order models errorCallback).2 ++ rest ∧
    ((AutoMigrate conn_AutoMigrate order models errorCallback).1 = Returns tt →
     rest = []) ∧
    (∀ p, (AutoMigrate conn_AutoMigrate order models errorCallback).1 = Panics p →
       ∃ e, p = PanicError e ∧
            last (AutoMigrate conn_AutoMigrate order models errorCallback).2
              = Some (PolicyAsked e)).
Proof.
  unfold AutoMigrate.
  destruct (AutoMigrate_loop conn_AutoMigrate order models errorCallback [])
    as [res trace'] eqn:Hrun.
  apply AutoMigrate_loop_visits in Hrun as (visited & rest & Hsplit & Hseen & Hret & Hp).
  exists rest. simpl in *. rewrite Hseen. split_and!; try done.
  intros p Hpanic. destruct (Hp p Hpanic) as (e & conn & -> & _ & Hlast). eauto.
Qed.

End MigrationProperties.

(** ** Initialization, serving and migrating together *)

Section EndToEnd.

Variable strconv_Quote : string → string.
Variable CanonicalMIMEHeaderKey : string → string.
Variable gorm_Open_error : list gorm_DB → Dialector → gorm_Config → option string.
Variable conn_AutoMigrate : list migration_event → gorm_DB → list any → option error.

Implicit Types (c : DatabaseConfig) (order : list (string * gmap string string))
  (options : list Option) (opened : list gorm_DB) (resolver : DBResolver).

Local Abbreviation apiKey_of := (request_apiKey CanonicalMIMEHeaderKey).
Local Abbreviation serve := (Middleware strconv_Quote CanonicalMIMEHeaderKey).

(** After a successful [New], a tenant resolves exactly when the
    configuration has an entry for it. *)
Lemma New_tenant_resolves c order options opened (opened' : list gorm_DB) resolver
    (T : string) :
  go_range c order →
  Forall (fun o => ∃ cfg, o = GormConfig cfg) options →
  New gorm_Open_error c order options opened = Returns (Ok resolver, opened') →
  (is_Some (c !! T) → ∃ conn, resolveConnection resolver T = Ok conn) ∧
  (c !! T = None → resolveConnection resolver T = Err (ErrNoConfiguration T)).
Proof.
  intros Hrange Hopts HNew.
  destruct (New_registry_keys _ _ _ _ _ _ _ Hrange Hopts HNew) as [Hcfg Hkeys].
  split.
  - intros [m HT].
    destruct (New_Ok _ _ _ _ _ _ _ Hopts HNew) as (ids & handles & _ & _ & _ & Hentry & _).
    pose proof HT as [i Hi]%(go_range_lookup _ _ _ _ Hrange)%list_elem_of_lookup_1.
    destruct (Hentry i T m Hi) as (drv & dbn & _ & _ & Hdbn & _).
    assert (canonical_identifier c T = Some dbn) as Hcanon.
    { unfold canonical_identifier. by rewrite HT. }
    destruct (proj2 (Hkeys dbn)) as [conn Hconn]; [by exists T|].
    exists conn. apply resolveConnection_Ok. exists dbn. by rewrite Hcfg.
  - intros Hnone. unfold resolveConnection. by rewrite Hcfg, Hnone.
Qed.

(** X18. After a successful [New], the middleware serves exactly the
    requests whose identifier is a tenant of the configuration: such a request
    reaches the downstream handler with [DB] returning a handle connected to
    the tenant's canonical identifier and [DBName] returning that identifier,
    and every other request is rejected with the unknown-tenant error. *)
Theorem New_Middleware_serves_configured_tenants c order options opened
    (opened' : list gorm_DB) resolver (g : Globals) (r : Request) :
  go_range c order →
  Forall (fun o => ∃ cfg, o = GormConfig cfg) options →
  New gorm_Open_error c order options opened = Returns (Ok resolver, opened') →
  (is_Some (c !! apiKey_of g r) →
     ∃ r' conn databaseName,
       (∀ next x, serve resolver next g r x = next r' x) ∧
       DB resolver r' = Returns conn ∧
       DBName resolver r' = Returns databaseName ∧
       canonical_identifier c (apiKey_of g r) = Some databaseName ∧
       dialector_dsn (db_dialector conn) = databaseName) ∧
  (c !! apiKey_of g r = None →
     ∀ next x,
       serve resolver next g r x
       = rejection strconv_Quote (ErrNoConfiguration (apiKey_of g r)) x).
Proof.
  intros Hrange Hopts HNew.
  destruct (New_tenant_resolves _ _ _ _ _ _ (apiKey_of g r) Hrange Hopts HNew)
    as [Hknown Hunknown].
  destruct (New_registry_keys _ _ _ _ _ _ _ Hrange Hopts HNew) as [Hcfg _].
  split.
  - intros [conn Hres]%Hknown.
    pose proof Hres as (name & Hname & Hconn)%resolveConnection_Ok.
    destruct (New_registry_entry _ _ _ _ _ _ _ _ _ Hopts HNew Hconn)
      as (_ & _ & _ & drv & _ & _ & _ & Hdial & _).
    apply dialect_for_Some in Hdial as [_ Hdsn]. simpl in Hdsn.
    eexists _, conn, name. split.
    + intros next x. rewrite (Middleware_Ok _ _ _ _ _ _ _ _ Hres).
      by rewrite (resolveDatabaseName_Ok _ _ _ Hname).
    + rewrite <- Hcfg. by split_and!.
  - intros Hres%Hunknown next x. by apply Middleware_Err.
Qed.

(** X19. After a successful [New], an [AutoMigrate] that returns has
    migrated every handle of the registry once: the handles attempted are
    distinct, they are the handles of the registry, and they are as many as
    the configuration has distinct canonical identifiers, however many
    tenants share one. *)
Theorem AutoMigrate_once_per_identifier c order options opened (opened' : list gorm_DB)
    resolver (registry_order : list (string * gorm_DB)) (models : list any)
    (errorCallback : error → bool) (trace : list migration_event) :
  go_range c order →
  Forall (fun o => ∃ cfg, o = GormConfig cfg) options →
  New gorm_Open_error c order options opened = Returns (Ok resolver, opened') →
  go_range (conns resolver) registry_order →
  AutoMigrate conn_AutoMigrate registry_order models errorCallback = (Returns tt, trace) →
  attempted trace ≡ₚ (map_to_list (conns resolver)).*2 ∧
  NoDup (attempted trace) ∧
  length (attempted trace) = size (canonical_identifiers c).
Proof.
  intros Hrange Hopts HNew Hreg Hrun.
  destruct (New_registry_keys _ _ _ _ _ _ _ Hrange Hopts HNew) as [_ Hkeys].
  unfold AutoMigrate in Hrun.
  apply AutoMigrate_loop_visits in Hrun as (visited & rest & Hsplit & Hseen & Hret & _).
  rewrite (Hret eq_refl), app_nil_r in Hsplit. simpl in Hseen. subst visited.
  rewrite Hseen. split_and!.
  - by rewrite Hreg.
  - apply NoDup_alt. intros i j h Hi Hj.
    apply list_lookup_fmap_Some in Hi as ([d1 h1] & -> & Hi).
    apply list_lookup_fmap_Some in Hj as ([d2 h2] & Heq & Hj).
    simpl in Heq. subst h2.
    assert (conns resolver !! d1 = Some h1) as Hc1.
    { apply elem_of_map_to_list. rewrite <- Hreg. by eapply list_elem_of_lookup_2. }
    assert (conns resolver !! d2 = Some h1) as Hc2.
    { apply elem_of_map_to_list. rewrite <- Hreg. by eapply list_elem_of_lookup_2. }
    destruct (New_registry_entry _ _ _ _ _ _ _ _ _ Hopts HNew Hc1)
      as (i1 & k1 & m1 & ? & Ho1 & _ & Hdb1 & _ & Ha1 & _).
    destruct (New_registry_entry _ _ _ _ _ _ _ _ _ Hopts HNew Hc2)
      as (i2 & k2 & m2 & ? & Ho2 & _ & Hdb2 & _ & Ha2 & _).
    assert (i1 = i2) as -> by lia.
    assert (d1 = d2) as -> by congruence.
    assert (NoDup registry_order) as Hnodup.
    { rewrite Hreg. apply NoDup_map_to_list. }
    by apply (proj1 (NoDup_alt _) Hnodup i j (d2, h1)).
  - rewrite length_fmap, (Permutation_length Hreg), length_map_to_list.
    rewrite <- size_dom. f_equal. apply set_eq. intros d.
    rewrite elem_of_dom, elem_of_canonical_identifiers. apply Hkeys.
Qed.

End EndToEnd.

(** * Instances of the further properties *)

(** The two visiting orders of [config_shared] give the same descriptors up
    to their order. *)
Lemma DatabaseDrivers_order_irrelevant_witness :
  order_shared ≡ₚ order_shared_reversed ∧
  ∃ drivers,
    DatabaseDrivers order_shared_reversed = Returns drivers ∧
    [mkDBDriver "sqlite" "a.db"; mkDBDriver "mysql" "a.db"] ≡ₚ drivers.
Proof.
  assert (order_shared ≡ₚ order_shared_reversed) as Hperm by apply perm_swap.
  split; [exact Hperm|].
  destruct (DatabaseDrivers_order_irrelevant order_shared order_shared_reversed Hperm)
    as [_ Hret].
  apply (Hret [mkDBDriver "sqlite" "a.db"; mkDBDriver "mysql" "a.db"]).
  reflexivity.
Defined.

(** The entry without [driver] makes [New] panic, here with a [GormConfig]
    option. *)
Lemma New_panics_iff_incomplete_entry_witness :
  go_range config_missing_driver order_missing_driver ∧
  Forall (fun o => ∃ cfg, o = GormConfig cfg) [GormConfig (Config_custom "debug")] ∧
  ∃ p, New open_succeeds config_missing_driver order_missing_driver
         [GormConfig (Config_custom "debug")] [] = Panics p.
Proof.
  assert (go_range config_missing_driver order_missing_driver) as Hrange
    by (unfold go_range; vm_compute; reflexivity).
  assert (Forall (fun o : Option => ∃ cfg, o = GormConfig cfg)
            [GormConfig (Config_custom "debug")]) as Hopts.
  { constructor; [|constructor]. exists (Config_custom "debug"). reflexivity. }
  split; [exact Hrange|]. split; [exact Hopts|].
  destruct (New_panics_iff_incomplete_entry open_succeeds config_missing_driver
              order_missing_driver [GormConfig (Config_custom "debug")] []
              Hrange Hopts) as [Hiff _].
  apply Hiff. exists "k1", (<["database" := "a.db"]> ∅). split.
  - vm_compute; reflexivity.
  - left. vm_compute; reflexivity.
Defined.

(** The driver kind [oracle] is refused. *)
Lemma New_unsupported_driver_fails_witness :
  go_range config_unsupported order_unsupported ∧
  config_unsupported !! "k1" = Some (tenant_entry "a.db" "oracle") ∧
  tenant_entry "a.db" "oracle" !! "driver" = Some "oracle" ∧
  ¬ supported_driver "oracle" ∧
  New open_succeeds config_unsupported order_unsupported [] []
    ≠ Returns (Ok resolver_single, [handle_sqlite_a]).
Proof.
  assert (go_range config_unsupported order_unsupported) as Hrange
    by (unfold go_range; vm_compute; reflexivity).
  assert (config_unsupported !! "k1" = Some (tenant_entry "a.db" "oracle")) as Hk
    by (vm_compute; reflexivity).
  assert (tenant_entry "a.db" "oracle" !! "driver" = Some "oracle") as Hdrv
    by (vm_compute; reflexivity).
  assert (¬ supported_driver "oracle") as Hno.
  { intros [H|[H|H]]; discriminate H. }
  split; [exact Hrange|]. split; [exact Hk|]. split; [exact Hdrv|]. split; [exact Hno|].
  destruct (New_unsupported_driver_fails open_succeeds config_unsupported
              order_unsupported [] [] Hrange) as [Hfail _].
  exact (Hfail "k1" _ "oracle" Hk Hdrv Hno resolver_single [handle_sqlite_a]).
Defined.

(** When the connection is refused, [New] fails having opened nothing. *)
Lemma New_keeps_opened_handles_witness :
  go_range config_single order_single ∧
  New open_refused config_single order_single [] []
    = Returns (Err (ErrGorm "connection refused"), []) ∧
  ∃ handles : list gorm_DB, [] = [] ++ handles ∧ (length handles < size config_single)%nat.
Proof.
  assert (go_range config_single order_single) as Hrange
    by (unfold go_range; vm_compute; reflexivity).
  assert (New open_refused config_single order_single [] []
          = Returns (Err (ErrGorm "connection refused"), [])) as HNew
    by (vm_compute; reflexivity).
  split; [exact Hrange|]. split; [exact HNew|].
  destruct (New_keeps_opened_handles open_refused config_single order_single [] []
              _ _ Hrange HNew) as (handles & Heq & _ & _ & Hlt & _).
  exists handles. split; [exact Heq|]. exact (Hlt _ eq_refl).
Defined.

(** With one sqlite handle for [a.db] open already, the handle of tenant
    [k1] is a second handle for [a.db], not the one open before. *)
Lemma New_handle_matches_tenant_witness :
  well_addressed [handle_sqlite_a] ∧
  go_range config_two_tenants order_two_tenants ∧
  Forall (fun o => ∃ cfg, o = GormConfig cfg) [] ∧
  New open_succeeds config_two_tenants order_two_tenants [] [handle_sqlite_a]
    = Returns
        (Ok resolver_two_tenants_later,
         [handle_sqlite_a; handle_sqlite_a_second;
          mkDB 2 (sqlite_Open "b.db") Config_zero]) ∧
  resolveConnection resolver_two_tenants_later "k1" = Ok handle_sqlite_a_second ∧
  ∃ d, canonical_identifier config_two_tenants "k1" = Some d ∧
       dialector_dsn (db_dialector handle_sqlite_a_second) = d ∧
       handle_sqlite_a_second ∉ [handle_sqlite_a].
Proof.
  assert (well_addressed [handle_sqlite_a]) as Hwell.
  { intros [|i] h Hi; simpl in Hi.
    - injection Hi as <-. reflexivity.
    - destruct i; discriminate Hi. }
  assert (go_range config_two_tenants order_two_tenants) as Hrange
    by (unfold go_range; vm_compute; reflexivity).
  assert (Forall (fun o : Option => ∃ cfg, o = GormConfig cfg) []) as Hopts
    by constructor.
  assert (New open_succeeds config_two_tenants order_two_tenants [] [handle_sqlite_a]
          = Returns
              (Ok resolver_two_tenants_later,
               [handle_sqlite_a; handle_sqlite_a_second;
                mkDB 2 (sqlite_Open "b.db") Config_zero]))
    as HNew by (vm_compute; reflexivity).
  assert (resolveConnection resolver_two_tenants_later "k1" = Ok handle_sqlite_a_second)
    as Hres by (vm_compute; reflexivity).
  split; [exact Hwell|]. split; [exact Hrange|]. split; [exact Hopts|].
  split; [exact HNew|]. split; [exact Hres|].
  destruct (New_handle_matches_tenant open_succeeds config_two_tenants
              order_two_tenants [] [handle_sqlite_a] _ _ "k1" _
              Hwell Hrange Hopts HNew Hres)
    as (d & drv & handles & Hd & Hdsn & _ & _ & _ & _ & _ & Hfresh & _).
  exists d. split; [exact Hd|]. split; [exact Hdsn|exact Hfresh].
Defined.

(** The tenants [k1] and [k2] of [config_two_tenants] get different handles. *)
Lemma New_isolates_tenants_witness :
  Forall (fun o => ∃ cfg, o = GormConfig cfg) [] ∧
  New open_succeeds config_two_tenants order_two_tenants [] []
    = Returns (Ok resolver_two_backends, [handle_sqlite_a; handle_sqlite_b]) ∧
  resolveConnection resolver_two_backends "k1" = Ok handle_sqlite_a ∧
  resolveConnection resolver_two_backends "k2" = Ok handle_sqlite_b ∧
  (handle_sqlite_a = handle_sqlite_b ↔
   canonical_identifier config_two_tenants "k1"
   = canonical_identifier config_two_tenants "k2").
Proof.
  assert (Forall (fun o : Option => ∃ cfg, o = GormConfig cfg) []) as Hopts
    by constructor.
  assert (New open_succeeds config_two_tenants order_two_tenants [] []
          = Returns (Ok resolver_two_backends, [handle_sqlite_a; handle_sqlite_b]))
    as HNew by (vm_compute; reflexivity).
  assert (resolveConnection resolver_two_backends "k1" = Ok handle_sqlite_a) as H1
    by (vm_compute; reflexivity).
  assert (resolveConnection resolver_two_backends "k2" = Ok handle_sqlite_b) as H2
    by (vm_compute; reflexivity).
  split; [exact Hopts|]. split; [exact HNew|]. split; [exact H1|]. split; [exact H2|].
  exact (proj1 (New_isolates_tenants open_succeeds config_two_tenants
                  order_two_tenants [] [] _ _ "k1" "k2" _ _ Hopts HNew H1 H2)).
Defined.

(** With two [GormConfig] options the second one is in force. *)
Lemma New_uses_last_GormConfig_witness :
  New open_succeeds config_single order_single
    (GormConfig <$> [Config_custom "silent"; Config_custom "debug"]) []
  = Returns
      (Ok {| conns := <["a.db" := mkDB 0 (sqlite_Open "a.db") (Config_custom "debug")]> ∅;
             databaseConfig := config_single;
             config := Config_custom "debug" |},
       [mkDB 0 (sqlite_Open "a.db") (Config_custom "debug")]) ∧
  default Config_zero (last [Config_custom "silent"; Config_custom "debug"])
  = Config_custom "debug".
Proof.
  assert (New open_succeeds config_single order_single
            (GormConfig <$> [Config_custom "silent"; Config_custom "debug"]) []
          = Returns
              (Ok {| conns :=
                       <["a.db" := mkDB 0 (sqlite_Open "a.db") (Config_custom "debug")]> ∅;
                     databaseConfig := config_single;
                     config := Config_custom "debug" |},
               [mkDB 0 (sqlite_Open "a.db") (Config_custom "debug")])) as HNew
    by (vm_compute; reflexivity).
  split; [exact HNew|].
  destruct (New_uses_last_GormConfig open_succeeds config_single order_single
              [Config_custom "silent"; Config_custom "debug"] [] _ _ HNew) as [Hcfg _].
  symmetry. exact Hcfg.
Defined.

(** For an unknown tenant both lookups fail with the same error. *)
Lemma resolveDatabaseName_error_shared_witness :
  (resolveDatabaseName resolver_single "nobody").2 = Some (ErrNoConfiguration "nobody") ∧
  resolveConnection resolver_single "nobody" = Err (ErrNoConfiguration "nobody").
Proof.
  assert ((resolveDatabaseName resolver_single "nobody").2
          = Some (ErrNoConfiguration "nobody")) as Herr by (vm_compute; reflexivity).
  split; [exact Herr|].
  destruct (resolveDatabaseName_error_shared resolver_single "nobody" _ Herr)
    as (_ & _ & Hres).
  exact Hres.
Defined.

(** Behind the middlewares of [resolver_single] and then [resolver_shared],
    the handler sees the handle of [resolver_shared]. *)
Lemma Middleware_nested_inner_wins_witness :
  resolveConnection resolver_single
    (request_apiKey canonical_example initial_Globals request_k1) = Ok handle_sqlite_a ∧
  resolveConnection resolver_shared
    (request_apiKey canonical_example initial_Globals request_k1) = Ok handle_mysql_a ∧
  ∃ r',
    Middleware quote_plain canonical_example resolver_single
      (Middleware quote_plain canonical_example resolver_shared handler_ok initial_Globals)
      initial_Globals request_k1 fresh_exchange
    = handler_ok r' fresh_exchange ∧
    DB resolver_single r' = Returns handle_mysql_a.
Proof.
  assert (resolveConnection resolver_single
            (request_apiKey canonical_example initial_Globals request_k1)
          = Ok handle_sqlite_a) as H1 by (vm_compute; reflexivity).
  assert (resolveConnection resolver_shared
            (request_apiKey canonical_example initial_Globals request_k1)
          = Ok handle_mysql_a) as H2 by (vm_compute; reflexivity).
  split; [exact H1|]. split; [exact H2|].
  destruct (Middleware_nested_inner_wins quote_plain canonical_example
              resolver_single resolver_shared handler_ok initial_Globals request_k1
              fresh_exchange _ _ H1 H2) as (r' & name & Hrun & _ & Hdb & _).
  exists r'. split; [exact Hrun|exact Hdb].
Defined.

(** The header names an unknown tenant and the query names [k1]: rejected. *)
Lemma Middleware_header_failure_no_fallback_witness :
  Header_Get canonical_example (Header request_conflicting) (apiKeyHeader initial_Globals)
    ≠ "" ∧
  resolveConnection resolver_single
    (Header_Get canonical_example (Header request_conflicting)
       (apiKeyHeader initial_Globals))
  = Err (ErrNoConfiguration "nobody") ∧
  Middleware quote_plain canonical_example resolver_single handler_ok initial_Globals
    request_conflicting fresh_exchange
  = rejection quote_plain (ErrNoConfiguration "nobody") fresh_exchange.
Proof.
  assert (Header_Get canonical_example (Header request_conflicting)
            (apiKeyHeader initial_Globals) ≠ "") as Hne.
  { vm_compute. intros H. discriminate H. }
  assert (resolveConnection resolver_single
            (Header_Get canonical_example (Header request_conflicting)
               (apiKeyHeader initial_Globals))
          = Err (ErrNoConfiguration "nobody")) as Hres by (vm_compute; reflexivity).
  split; [exact Hne|]. split; [exact Hres|].
  exact (Middleware_header_failure_no_fallback quote_plain canonical_example
           resolver_single initial_Globals request_conflicting _ Hne Hres
           (URL_Query request_conflicting) handler_ok fresh_exchange).
Defined.

(** A value under a key of another type and one under another name of the
    package's key type leave [DB] as it is. *)
Lemma accessors_ignore_other_keys_witness :
  Forall
    (fun binding : context_key * any =>
       binding.1 ≠ ConnectionContextKey ∧ binding.1 ≠ DatabaseContextKey)
    [(ForeignKey 7, any_string "trace-id"); (ContextValue "user", any_other 1)] ∧
  DB resolver_single
    (WithContext request_k1
       ([(ForeignKey 7, any_string "trace-id"); (ContextValue "user", any_other 1)]
        ++ req_Context request_k1))
  = DB resolver_single request_k1.
Proof.
  assert (Forall
            (fun binding : context_key * any =>
               binding.1 ≠ ConnectionContextKey ∧ binding.1 ≠ DatabaseContextKey)
            [(ForeignKey 7, any_string "trace-id"); (ContextValue "user", any_other 1)])
    as Hother.
  { repeat constructor; simpl; intros H; discriminate H. }
  split; [exact Hother|].
  exact (proj1 (accessors_ignore_other_keys resolver_single request_k1 _ Hother)).
Defined.

(** A request that did not pass the middleware makes [DB] panic. *)
Lemma accessors_panic_when_unbound_witness :
  Forall (fun binding : context_key * any => binding.1 ≠ ConnectionContextKey)
    (req_Context (WithContext request_k1 [(ForeignKey 7, any_string "trace-id")])) ∧
  DB resolver_single (WithContext request_k1 [(ForeignKey 7, any_string "trace-id")])
  = Panics PanicTypeAssertion.
Proof.
  assert (Forall (fun binding : context_key * any => binding.1 ≠ ConnectionContextKey)
            (req_Context
               (WithContext request_k1 [(ForeignKey 7, any_string "trace-id")])))
    as Hnone.
  { repeat constructor. simpl. intros H. discriminate H. }
  split; [exact Hnone|].
  exact (proj1 (accessors_panic_when_unbound resolver_single _) Hnone).
Defined.

(** After [SetHeaderName "apikey"], a request carrying [k1] under the header
    of the default name and one carrying nothing have the same identifier. *)
Lemma SetHeaderName_selects_source_witness :
  Header request_k1 !! canonical_example "apikey"
    = Header request_anonymous !! canonical_example "apikey" ∧
  URL_Query request_k1 !! "apikey" = URL_Query request_anonymous !! "apikey" ∧
  request_apiKey canonical_example (SetHeaderName "apikey" initial_Globals) request_k1
  = request_apiKey canonical_example (SetHeaderName "apikey" initial_Globals)
      request_anonymous.
Proof.
  assert (Header request_k1 !! canonical_example "apikey"
          = Header request_anonymous !! canonical_example "apikey") as Hh
    by (vm_compute; reflexivity).
  assert (URL_Query request_k1 !! "apikey" = URL_Query request_anonymous !! "apikey")
    as Hq by (vm_compute; reflexivity).
  split; [exact Hh|]. split; [exact Hq|].
  exact (proj1 (SetHeaderName_selects_source canonical_example "apikey"
                  initial_Globals initial_Globals request_k1 request_anonymous Hh Hq)).
Defined.

(** When both migrations succeed, both backends are migrated and the callback
    is not called. *)
Lemma AutoMigrate_without_failure_witness :
  (∀ trace conn, migration_succeeds trace conn [] = None) ∧
  AutoMigrate migration_succeeds order_two_backends [] tolerate_none
  = (Returns tt, [Migrated handle_sqlite_a; Migrated handle_sqlite_b]).
Proof.
  assert (∀ trace conn, migration_succeeds trace conn [] = None) as Hok
    by (intros; reflexivity).
  split; [exact Hok|].
  exact (AutoMigrate_without_failure migration_succeeds order_two_backends []
           tolerate_none Hok).
Defined.

(** With [config_single], the request of tenant [k1] is served. *)
Lemma New_Middleware_serves_configured_tenants_witness :
  go_range config_single order_single ∧
  Forall (fun o => ∃ cfg, o = GormConfig cfg) [] ∧
  New open_succeeds config_single order_single [] []
    = Returns (Ok resolver_single, [handle_sqlite_a]) ∧
  is_Some (config_single !! request_apiKey canonical_example initial_Globals request_k1) ∧
  ∃ r' conn,
    Middleware quote_plain canonical_example resolver_single handler_ok initial_Globals
      request_k1 fresh_exchange
    = handler_ok r' fresh_exchange ∧
    DB resolver_single r' = Returns conn.
Proof.
  assert (go_range config_single order_single) as Hrange
    by (unfold go_range; vm_compute; reflexivity).
  assert (Forall (fun o : Option => ∃ cfg, o = GormConfig cfg) []) as Hopts
    by constructor.
  assert (New open_succeeds config_single order_single [] []
          = Returns (Ok resolver_single, [handle_sqlite_a])) as HNew
    by (vm_compute; reflexivity).
  assert (is_Some (config_single
                   !! request_apiKey canonical_example initial_Globals request_k1))
    as Hkey by (vm_compute; eauto).
  split; [exact Hrange|]. split; [exact Hopts|]. split; [exact HNew|].
  split; [exact Hkey|].
  destruct (New_Middleware_serves_configured_tenants quote_plain canonical_example
              open_succeeds config_single order_single [] [] _ _ initial_Globals
              request_k1 Hrange Hopts HNew) as [Hserve _].
  destruct (Hserve Hkey) as (r' & conn & name & Hrun & Hdb & _).
  exists r', conn. split; [exact (Hrun handler_ok fresh_exchange)|exact Hdb].
Defined.

(** Two tenants share [a.db]: one migration. *)
Lemma AutoMigrate_once_per_identifier_witness :
  go_range config_shared_sqlite order_shared_sqlite ∧
  Forall (fun o => ∃ cfg, o = GormConfig cfg) [] ∧
  New open_succeeds config_shared_sqlite order_shared_sqlite [] []
    = Returns (Ok resolver_shared_sqlite, [handle_sqlite_a; handle_sqlite_a_second]) ∧
  go_range (conns resolver_shared_sqlite) [("a.db", handle_sqlite_a_second)] ∧
  AutoMigrate migration_succeeds [("a.db", handle_sqlite_a_second)] [] tolerate_none
    = (Returns tt, [Migrated handle_sqlite_a_second]) ∧
  length (attempted [Migrated handle_sqlite_a_second])
    = size (canonical_identifiers config_shared_sqlite).
Proof.
  assert (go_range config_shared_sqlite order_shared_sqlite) as Hrange
    by (unfold go_range; vm_compute; reflexivity).
  assert (Forall (fun o : Option => ∃ cfg, o = GormConfig cfg) []) as Hopts
    by constructor.
  assert (New open_succeeds config_shared_sqlite order_shared_sqlite [] []
          = Returns (Ok resolver_shared_sqlite, [handle_sqlite_a; handle_sqlite_a_second]))
    as HNew by (vm_compute; reflexivity).
  assert (go_range (conns resolver_shared_sqlite) [("a.db", handle_sqlite_a_second)])
    as Hreg by (unfold go_range; vm_compute; reflexivity).
  assert (AutoMigrate migration_succeeds [("a.db", handle_sqlite_a_second)] []
            tolerate_none
          = (Returns tt, [Migrated handle_sqlite_a_second])) as Hrun by reflexivity.
  split; [exact Hrange|]. split; [exact Hopts|]. split; [exact HNew|].
  split; [exact Hreg|]. split; [exact Hrun|].
  exact (proj2 (proj2 (AutoMigrate_once_per_identifier open_succeeds migration_succeeds
                         config_shared_sqlite order_shared_sqlite [] [] _ _ _ []
                         tolerate_none _ Hrange Hopts HNew Hreg Hrun))).
Defined.
